(** * Hardlink scanner (src/backup/find_hardlinks.py): model and properties

    The scanner indexes the inodes of an "originals" tree, walks a "root"
    tree and appends to each indexed inode the paths that share it, then
    prints the groups that have enough additional links.

    The three Python functions are embedded as Rocq functions over an explicit
    file system (what [walk], [stat], [is_symlink], [resolve] and [open]
    answer) and an explicit store holding the two dictionaries the workers
    mutate.  A [ThreadPoolExecutor] is a scheduler that runs the submitted
    workers one after the other in some permutation of the submission order;
    a worker body is taken to be atomic. *)

From Stdlib Require Import List ZArith Ascii String Bool Permutation Lia.
Import ListNotations.
Local Open Scope Z_scope.
Local Open Scope list_scope.

Set Implicit Arguments.

(** ** Paths (pathlib.PurePosixPath, already parsed) *)

Record Path : Type := mkPath {
  is_absolute : bool;          (* the anchor: a leading "/" or none *)
  parts : list string          (* the components below the anchor *)
}.

Fixpoint parts_eqb (a b : list string) : bool :=
  match a, b with
  | [], [] => true
  | x :: a', y :: b' => String.eqb x y && parts_eqb a' b'
  | _, _ => false
  end.

Definition Path_eqb (p q : Path) : bool :=
  Bool.eqb (is_absolute p) (is_absolute q) && parts_eqb (parts p) (parts q).

(* [prefix_of a b]: the components [a] start the components [b]. *)
Fixpoint prefix_of (a b : list string) : bool :=
  match a, b with
  | [], _ => true
  | x :: a', y :: b' => String.eqb x y && prefix_of a' b'
  | _ :: _, [] => false
  end.

(* self.is_relative_to(other): other == self or other in self.parents *)
Definition is_relative_to (self other : Path) : bool :=
  Bool.eqb (is_absolute self) (is_absolute other)
  && prefix_of (parts other) (parts self).

(* path / file, for a single file name *)
Definition joinpath (path : Path) (file : string) : Path :=
  mkPath (is_absolute path) (parts path ++ [file]).

(** ** Exceptions and the file system *)

Inductive errno : Type := ENOENT | EACCES | ELOOP | EIO.

(* OSError ENOENT is Python's FileNotFoundError. *)
Inductive exn : Type :=
| OSError (e : errno)
| ValueError (msg : string)
| IndexError.

Definition FileNotFoundError : exn := OSError ENOENT.

Inductive fs_result (A : Type) : Type :=
| FsOk (a : A)
| FsErr (e : errno).
Arguments FsOk {A} a.
Arguments FsErr {A} e.

Inductive open_mode : Type := mode_a | mode_w.

(* What the file system answers.  Path.is_symlink() is taken to answer: it
   swallows the errors of a missing or unreadable name itself, and the
   OSError it re-raises otherwise (a directory of the path that may not be
   searched, for one) is left out of the model. *)
Record FileSystem : Type := mkFS {
  cwd : list string;                              (* os.getcwd() *)
  walk : Path -> list (Path * list string);       (* Path.walk(): (dirpath, filenames) *)
  stat : Path -> fs_result Z;                     (* Path.stat().st_ino *)
  is_symlink : Path -> bool;                      (* Path.is_symlink() *)
  resolve : Path -> fs_result Path;               (* Path.resolve() *)
  open_file : Path -> open_mode -> fs_result unit (* open(to_file, mode) *)
}.

(* Path.absolute() *)
Definition absolute (fs : FileSystem) (p : Path) : Path :=
  if is_absolute p then p else mkPath true (cwd fs ++ parts p).

Inductive Event : Type :=
| EOpen (p : Path) (m : open_mode)
| EWalk (d : Path)
| ELstat (p : Path)
| EReadlink (p : Path)
| EStat (p : Path).

(** ** Insertion-ordered dictionaries *)

Section Dict.
Variables K V : Type.
Variable eqb : K -> K -> bool.

Definition dict : Type := list (K * V).

Fixpoint dict_get (k : K) (d : dict) : option V :=
  match d with
  | [] => None
  | (k', v) :: d' => if eqb k k' then Some v else dict_get k d'
  end.

(* k in d *)
Definition dict_contains (k : K) (d : dict) : bool :=
  match dict_get k d with Some _ => true | None => false end.

(* d[k] = v: an existing key keeps its position, a new one goes last *)
Fixpoint dict_set (k : K) (v : V) (d : dict) : dict :=
  match d with
  | [] => [(k, v)]
  | (k', v') :: d' =>
      if eqb k k' then (k', v) :: d' else (k', v') :: dict_set k v d'
  end.

Definition dict_keys (d : dict) : list K := map fst d.
Definition dict_values (d : dict) : list V := map snd d.
End Dict.

(* d[k].append(x) on a defaultdict(list): a missing key is created with an
   empty list first, then the element is appended. *)
Fixpoint defaultdict_append (K A : Type) (eqb : K -> K -> bool)
    (k : K) (x : A) (d : dict K (list A)) : dict K (list A) :=
  match d with
  | [] => [(k, [] ++ [x])]
  | (k', l) :: d' =>
      if eqb k k' then (k', l ++ [x]) :: d'
      else (k', l) :: defaultdict_append eqb k x d'
  end.

(** ** The store shared by the workers *)

Record Store : Type := mkStore {
  originals_inode_map : dict Path Z;
  paths_per_inode : dict Z (list Path)
}.

Definition empty_store : Store := mkStore [] [].

(* What one submitted call leaves behind: the accesses it made, the store
   after it, and the exception kept in its Future (never looked at). *)
Record Step : Type := mkStep {
  accesses : list Event;
  after : Store;
  raised : option exn
}.

Section Workers.
Variable fs : FileSystem.

Definition add_file_inode_to_map (file_path : Path) (s : Store) : Step :=
  match stat fs file_path with
  | FsOk inode =>
      mkStep [EStat file_path]
        (mkStore (dict_set Path_eqb file_path inode (originals_inode_map s))
                 (defaultdict_append Z.eqb inode file_path (paths_per_inode s)))
        None
  | FsErr ENOENT => mkStep [EStat file_path] s None        (* except FileNotFoundError: pass *)
  | FsErr e => mkStep [EStat file_path] s (Some (OSError e))
  end.

Variable skip_symlinks : bool.
Variable originals_directory_path : Path.

(* Lines 35-39, run on the path that lines 30-34 settled on. *)
Definition check_inode (file_path : Path) (s : Store) : Step :=
  if is_relative_to file_path originals_directory_path then mkStep [] s None
  else
    match stat fs file_path with
    | FsOk inode =>
        mkStep [EStat file_path]
          (if dict_contains Z.eqb inode (paths_per_inode s)
           then mkStore (originals_inode_map s)
                  (defaultdict_append Z.eqb inode file_path (paths_per_inode s))
           else s)
          None
    | FsErr ENOENT => mkStep [EStat file_path] s None      (* except FileNotFoundError: pass *)
    | FsErr e => mkStep [EStat file_path] s (Some (OSError e))
    end.

Definition check_if_file_is_hardlink (file_path : Path) (s : Store) : Step :=
  if is_symlink fs file_path then
    if skip_symlinks then mkStep [ELstat file_path] s None
    else
      match resolve fs file_path with
      | FsOk target =>
          let r := check_inode target s in
          mkStep (ELstat file_path :: EReadlink file_path :: accesses r)
                 (after r) (raised r)
      | FsErr ENOENT => mkStep [ELstat file_path; EReadlink file_path] s None
      | FsErr e =>
          mkStep [ELstat file_path; EReadlink file_path] s (Some (OSError e))
      end
  else
    let r := check_inode file_path s in
    mkStep (ELstat file_path :: accesses r) (after r) (raised r).
End Workers.

(** ** Thread pools *)

(* A pool runs every submitted call exactly once, in an order of its own. *)
Record Executor : Type := mkExecutor {
  order : list Path -> list Path;
  order_perm : forall submitted, Permutation (order submitted) submitted
}.

Definition fifo : Executor := mkExecutor (fun l => l) (@Permutation_refl Path).
Definition lifo : Executor :=
  mkExecutor (@rev Path) (fun l => Permutation_sym (Permutation_rev l)).

Fixpoint run_workers (worker : Path -> Store -> Step) (calls : list Path)
    (s : Store) : list Event * Store :=
  match calls with
  | [] => ([], s)
  | file_path :: rest =>
      let r := worker file_path s in
      let (ev, s') := run_workers worker rest (after r) in
      (accesses r ++ ev, s')
  end.

(* with ThreadPoolExecutor() as executor: ... leaves the block when every
   submitted call has finished. *)
Definition run_pool (pool : Executor) (worker : Path -> Store -> Step)
    (submitted : list Path) (s : Store) : list Event * Store :=
  run_workers worker (order pool submitted) s.

(** ** The two walks *)

(* for path, _, files in originals_directory_path.walk(): for file in files *)
Definition originals_calls (entries : list (Path * list string)) : list Path :=
  flat_map (fun e => map (joinpath (fst e)) (snd e)) entries.

(* any(path.is_relative_to(skip_dir) for skip_dir in skip_directories) *)
Definition skipped (skip_directories : list Path) (path : Path) : bool :=
  existsb (fun skip_dir => is_relative_to path skip_dir) skip_directories.

Definition root_calls (skip_directories : list Path)
    (entries : list (Path * list string)) : list Path :=
  flat_map (fun e => if skipped skip_directories (fst e) then []
                     else map (joinpath (fst e)) (snd e)) entries.

(** ** The emitter *)

(* range(lo, hi) *)
Definition range (lo hi : nat) : list nat := seq lo (hi - lo).

(* One iteration of the loop of lines 109-116: the lines printed and the
   exception that ended it, if any.  print is taken to succeed: an error of
   the output stream (a closed pipe, a full disk, a path the stream cannot
   encode) is left out of the model. *)
Definition emit_group (include_originals_in_output : bool) (min_links : Z)
    (paths : list Path) : list Path * option exn :=
  match paths with
  | [] => ([], Some IndexError)                      (* paths[0] *)
  | original_file :: _ =>
      if Z.of_nat (List.length paths) - 1 >=? min_links then
        ((if include_originals_in_output then [original_file] else [])
           ++ map (fun i => nth i paths original_file) (range 1 (List.length paths)),
         None)
      else ([], None)
  end.

Fixpoint emit (include_originals_in_output : bool) (min_links : Z)
    (groups : list (list Path)) : list Path * option exn :=
  match groups with
  | [] => ([], None)
  | paths :: rest =>
      match emit_group include_originals_in_output min_links paths with
      | (lines, Some e) => (lines, Some e)
      | (lines, None) =>
          let (more, r) := emit include_originals_in_output min_links rest in
          (lines ++ more, r)
      end
  end.

(** ** find_hardlinks *)

Record Run : Type := mkRun {
  log : list Event;          (* file-system accesses, in order *)
  final : Store;             (* the dictionaries when the function ends *)
  printed : list Path;       (* lines written to output_file *)
  outcome : option exn       (* the exception that left the function *)
}.

Section Scan.
Variable fs : FileSystem.
Variables pool1 pool2 : Executor.

(* Lines 82-108: both walks, from fresh dictionaries. *)
Definition scan (root_directory originals_directory : Path)
    (skip_symlinks : bool) (skip_directories : list Path)
    : list Event * Store :=
  let root_directory_path := absolute fs root_directory in
  let originals_directory_path := absolute fs originals_directory in
  let (ev1, s1) :=
    run_pool pool1 (add_file_inode_to_map fs)
      (originals_calls (walk fs originals_directory_path)) empty_store in
  let (ev2, s2) :=
    run_pool pool2
      (check_if_file_is_hardlink fs skip_symlinks originals_directory_path)
      (root_calls skip_directories (walk fs root_directory_path)) s1 in
  (EWalk originals_directory_path :: ev1
     ++ EWalk root_directory_path :: ev2, s2).

Definition find_hardlinks (root_directory originals_directory : Path)
    (min_links : Z) (to_file : option Path) (append_to_file : bool)
    (skip_symlinks : bool) (include_originals_in_output : bool)
    (skip_directories : list Path) : Run :=
  if min_links <? 1 then
    mkRun [] empty_store [] (Some (ValueError "min_links must be at least 1"))
  else
    let opened :=
      match to_file with
      | None => ([], None)                                    (* stdout *)
      | Some f =>
          let m := if append_to_file then mode_a else mode_w in
          ([EOpen f m],
           match open_file fs f m with
           | FsOk _ => None
           | FsErr e => Some (OSError e)
           end)
      end in
    match snd opened with
    | Some e => mkRun (fst opened) empty_store [] (Some e)
    | None =>
        let (ev, s) := scan root_directory originals_directory
                         skip_symlinks skip_directories in
        let (lines, r) := emit include_originals_in_output min_links
                            (dict_values (paths_per_inode s)) in
        mkRun (fst opened ++ ev) s lines r
    end.
End Scan.

(** ** File systems given by tables *)

Definition table_fs (dirs : dict Path (list (Path * list string)))
    (inodes : dict Path Z) (links : dict Path Path) : FileSystem :=
  mkFS []
    (fun d => match dict_get Path_eqb d dirs with Some es => es | None => [] end)
    (fun p => match dict_get Path_eqb p inodes with
              | Some i => FsOk i
              | None => FsErr ENOENT
              end)
    (fun p => dict_contains Path_eqb p links)
    (fun p => match dict_get Path_eqb p links with
              | Some q => FsOk q
              | None => FsOk p
              end)
    (fun _ _ => FsOk tt).

Definition abs (components : list string) : Path := mkPath true components.

Local Open Scope string_scope.

(* An originals tree with A (inode 100) and B (inode 200); a root tree with
   A2 and A3 (inode 100) and C (inode 300). *)
Module Example1.
Definition originals := abs ["orig"].
Definition root := abs ["root"].
Definition A := abs ["orig"; "A"].
Definition B := abs ["orig"; "B"].
Definition A2 := abs ["root"; "A2"].
Definition A3 := abs ["root"; "A3"].
Definition C := abs ["root"; "C"].
Definition fs : FileSystem :=
  table_fs [(originals, [(originals, ["A"; "B"])]);
            (root, [(root, ["A2"; "A3"; "C"])])]
           [(A, 100); (B, 200); (A2, 100); (A3, 100); (C, 300)]
           [].
(* What a run on this file system prints. *)
Definition output (pool1 pool2 : Executor) (to_file : option Path)
    (append_to_file skip_symlinks : bool) (min_links : Z)
    (include_originals_in_output : bool) : list Path :=
  printed (find_hardlinks fs pool1 pool2 root originals min_links to_file
             append_to_file skip_symlinks include_originals_in_output []).
End Example1.

(* Two originals that share inode 100, and a symbolic link in the root tree
   whose target lies outside both trees and has inode 100 as well. *)
Module Example3.
Definition originals := abs ["orig"].
Definition root := abs ["root"].
Definition A := abs ["orig"; "A"].
Definition A' := abs ["orig"; "A'"].
Definition link := abs ["root"; "link"].
Definition X := abs ["else"; "X"].
Definition fs : FileSystem :=
  table_fs [(originals, [(originals, ["A"; "A'"])]);
            (root, [(root, ["link"])])]
           [(A, 100); (A', 100); (link, 100); (X, 100)]
           [(link, X)].
End Example3.

(* The originals directory lies inside the root directory and holds a
   symbolic link L to its file A; in the root tree, A2 is a hardlink of A and
   ln a symbolic link to A. *)
Module Example7.
Definition root := abs ["r"].
Definition originals := abs ["r"; "o"].
Definition A := abs ["r"; "o"; "A"].
Definition L := abs ["r"; "o"; "L"].
Definition A2 := abs ["r"; "A2"].
Definition ln := abs ["r"; "ln"].
Definition fs : FileSystem :=
  table_fs [(originals, [(originals, ["A"; "L"])]);
            (root, [(root, ["A2"; "ln"]); (originals, ["A"; "L"])])]
           [(A, 100); (L, 100); (A2, 100); (ln, 100)]
           [(L, A); (ln, A)].
End Example7.

(* The root tree has a skipped directory with X, a hardlink of the original
   A, and outside it a symbolic link to X. *)
Module Example8.
Definition root := abs ["r"].
Definition originals := abs ["o"].
Definition skip := abs ["r"; "skip"].
Definition A := abs ["o"; "A"].
Definition link := abs ["r"; "link"].
Definition X := abs ["r"; "skip"; "X"].
Definition fs : FileSystem :=
  table_fs [(originals, [(originals, ["A"])]);
            (root, [(root, ["link"]); (skip, ["X"])])]
           [(A, 100); (link, 100); (X, 100)]
           [(link, X)].
End Example8.

(* Two originals A and A' that share inode 100, and in the root tree a
   symbolic link to A'. *)
Module Example4.
Definition root := abs ["r"].
Definition originals := abs ["o"].
Definition A := abs ["o"; "A"].
Definition A' := abs ["o"; "A'"].
Definition ln := abs ["r"; "ln"].
Definition fs : FileSystem :=
  table_fs [(originals, [(originals, ["A"; "A'"])]);
            (root, [(root, ["ln"])])]
           [(A, 100); (A', 100); (ln, 100)]
           [(ln, A')].
End Example4.

(* The originals directory is given as ../o from the working directory /w,
   so it is the directory /o; the root tree has a symbolic link to /o/A. *)
Module Example4Up.
Definition root := abs ["r"].
Definition originals_directory := mkPath false [".."; "o"].
Definition originals := abs ["w"; ".."; "o"].
Definition A := abs ["w"; ".."; "o"; "A"].
Definition target := abs ["o"; "A"].
Definition ln := abs ["r"; "ln"].
Definition table : FileSystem :=
  table_fs [(originals, [(originals, ["A"])]); (root, [(root, ["ln"])])]
           [(A, 100); (target, 100); (ln, 100)]
           [(ln, target); (originals, abs ["o"])].
Definition fs : FileSystem :=
  mkFS ["w"] (walk table) (stat table)
    (fun p => Path_eqb p ln) (resolve table) (open_file table).
End Example4Up.

Local Close Scope string_scope.

(** ** Vocabulary of the statements *)

(* Given [file_path], the classifier goes on to check [target]: the path
   itself when it is no symbolic link, its resolution when links are
   followed. *)
Definition reaches (fs : FileSystem) (skip_symlinks : bool)
    (file_path target : Path) : Prop :=
  (is_symlink fs file_path = false /\ target = file_path)
  \/ (is_symlink fs file_path = true /\ skip_symlinks = false
      /\ resolve fs file_path = FsOk target).

(* [target] is what some submitted call appends to the group of [inode]. *)
Definition discovered (fs : FileSystem) (skip_symlinks : bool)
    (originals_directory_path : Path) (calls : list Path)
    (inode : Z) (target : Path) : Prop :=
  exists file_path,
    In file_path calls
    /\ reaches fs skip_symlinks file_path target
    /\ is_relative_to target originals_directory_path = false
    /\ stat fs target = FsOk inode.

(* [path] was recorded for [inode] by the indexer. *)
Definition indexed (fs : FileSystem) (calls : list Path)
    (inode : Z) (path : Path) : Prop :=
  In path calls /\ stat fs path = FsOk inode.

(* A group as the indexer leaves it. *)
Definition index_ok (fs : FileSystem) (calls : list Path)
    (inode : Z) (paths : list Path) : Prop :=
  paths <> [] /\ Forall (indexed fs calls inode) paths.

(* The entry [e] is the entry [e0] with discovered paths appended. *)
Definition extends (fs : FileSystem) (skip_symlinks : bool)
    (originals_directory_path : Path) (calls : list Path)
    (e0 e : Z * list Path) : Prop :=
  fst e = fst e0
  /\ exists appended,
       snd e = snd e0 ++ appended
       /\ Forall (discovered fs skip_symlinks originals_directory_path calls (fst e0))
            appended.

(* The store when the first pool has drained (line 95). *)
Definition index_originals (fs : FileSystem) (pool1 : Executor)
    (originals_directory : Path) : Store :=
  snd (run_pool pool1 (add_file_inode_to_map fs)
         (originals_calls (walk fs (absolute fs originals_directory)))
         empty_store).

(* The lines one group contributes to the output. *)
Definition block (include_originals_in_output : bool) (min_links : Z)
    (paths : list Path) : list Path :=
  fst (emit_group include_originals_in_output min_links paths).

(* All the ways to put [a] into [l], and all orders of a list. *)
Fixpoint inserts (A : Type) (a : A) (l : list A) : list (list A) :=
  match l with
  | [] => [[a]]
  | x :: l' => (a :: l) :: map (cons x) (inserts a l')
  end.

Fixpoint orders (A : Type) (l : list A) : list (list A) :=
  match l with
  | [] => [[]]
  | a :: l' => flat_map (inserts a) (orders l')
  end.

(* The file system of Example1, except that B and C cannot be read. *)
Module ExampleDenied.
Definition fs : FileSystem :=
  mkFS (cwd Example1.fs) (walk Example1.fs)
    (fun p => if Path_eqb p Example1.B || Path_eqb p Example1.C
              then FsErr EACCES
              else stat Example1.fs p)
    (is_symlink Example1.fs) (resolve Example1.fs) (open_file Example1.fs).
End ExampleDenied.

(** ** Vocabulary of the further properties *)

(* [stat] answers with this inode. *)
Definition has_inode (fs : FileSystem) (inode : Z) (path : Path) : bool :=
  match stat fs path with
  | FsOk i => Z.eqb i inode
  | FsErr _ => false
  end.

(* The calls of the indexer that append under [inode], in the order given. *)
Definition index_hits (fs : FileSystem) (inode : Z) (calls : list Path)
    : list Path :=
  filter (has_inode fs inode) calls.

(* What a call of the classifier appends, and under which inode, when that
   inode is a key: the path it settles on, if it gets as far as line 39. *)
Definition classified (fs : FileSystem) (skip_symlinks : bool)
    (originals_directory_path file_path : Path) : option (Z * Path) :=
  let settled :=
    if is_symlink fs file_path then
      if skip_symlinks then None
      else match resolve fs file_path with
           | FsOk target => Some target
           | FsErr _ => None
           end
    else Some file_path in
  match settled with
  | None => None
  | Some target =>
      if is_relative_to target originals_directory_path then None
      else match stat fs target with
           | FsOk inode => Some (inode, target)
           | FsErr _ => None
           end
  end.

(* The paths the classifier's calls append under [inode], in the order given. *)
Definition class_hits (fs : FileSystem) (skip_symlinks : bool)
    (originals_directory_path : Path) (inode : Z) (calls : list Path)
    : list Path :=
  flat_map
    (fun c =>
       match classified fs skip_symlinks originals_directory_path c with
       | Some (i, target) => if Z.eqb i inode then [target] else []
       | None => []
       end)
    calls.

(* The accesses one call of the classifier makes; they do not depend on the
   store. *)
Definition check_accesses (fs : FileSystem) (skip_symlinks : bool)
    (originals_directory_path file_path : Path) : list Event :=
  accesses (check_if_file_is_hardlink fs skip_symlinks
              originals_directory_path file_path empty_store).


Definition is_open (ev : Event) : bool :=
  match ev with EOpen _ _ => true | _ => false end.

Definition is_readlink (ev : Event) : bool :=
  match ev with EReadlink _ => true | _ => false end.

(** ** jellyfin/add_all_subdirectories_to_library.py and jellyfin/utils.py *)

(* The command is embedded over a [World] that answers scandir and the two
   HTTP requests of the client.  What happens before the body is entered
   (typer's checks of the arguments) is left out, the client is taken to be
   built from a well-formed server URL, which makes no request, and every
   request is taken to get a response.  The requests of asyncio.gather are
   concurrent: their responses come back in an order of their own, and when
   one of them fails the model does not say which of the others were sent. *)

Module Jellyfin.

(* Truth value of an Optional[str]: None and the empty string are false. *)
Definition truthy (s : option string) : bool :=
  match s with
  | Some (String _ _) => true
  | _ => false
  end.

Definition text (s : option string) : string :=
  match s with
  | Some t => t
  | None => EmptyString
  end.

(* s.startswith(old) *)
Fixpoint starts_with (old s : string) : bool :=
  match old, s with
  | EmptyString, _ => true
  | String a old', String b s' => Ascii.eqb a b && starts_with old' s'
  | String _ _, EmptyString => false
  end.

(* s.replace(old, new) for a non-empty [old]: the occurrences are taken from
   the left and do not overlap; [skip] counts the characters of the
   occurrence just replaced that are still to be passed. *)
Fixpoint replace_from (old new : string) (skip : nat) (s : string) : string :=
  match s with
  | EmptyString => EmptyString
  | String c s' =>
      match skip with
      | S k => replace_from old new k s'
      | O =>
          if starts_with old s
          then String.append new
                 (replace_from old new (String.length old - 1) s')
          else String c (replace_from old new 0 s')
      end
  end.

(* With an empty [old], [new] goes before every character and at the end. *)
Fixpoint replace_empty (new s : string) : string :=
  match s with
  | EmptyString => new
  | String c s' => String.append new (String c (replace_empty new s'))
  end.

Definition str_replace (old new s : string) : string :=
  match old with
  | EmptyString => replace_empty new s
  | String _ _ => replace_from old new 0 s
  end.

(* Sets of strings: no element twice; the order of the list is of no
   account, iteration asks an [Ordering] for one. *)
Fixpoint mem (x : string) (s : list string) : bool :=
  match s with
  | [] => false
  | y :: s' => String.eqb x y || mem x s'
  end.

Definition set_add (x : string) (s : list string) : list string :=
  if mem x s then s else s ++ [x].

(* set(l), and a set comprehension over [l] *)
Definition set_of (l : list string) : list string :=
  fold_left (fun s x => set_add x s) l [].

(* a - b *)
Definition set_difference (a b : list string) : list string :=
  filter (fun x => negb (mem x b)) a.

Definition set_remove (x : string) (s : list string) : list string :=
  filter (fun y => negb (String.eqb x y)) s.

(* The order in which a set is iterated, and the order in which the
   responses to concurrent requests come back. *)
Record Ordering : Type := mkOrdering {
  arrange : forall A : Type, list A -> list A;
  arrange_perm : forall (A : Type) (l : list A), Permutation (arrange l) l
}.

Definition in_order : Ordering :=
  mkOrdering (fun A l => l) (fun A l => Permutation_refl l).
Definition reversed : Ordering :=
  mkOrdering (fun A l => rev l)
    (fun A l => Permutation_sym (Permutation_rev l)).

(* InvalidResponse stands for what response.json() and model_validate raise
   on a body that is no list of libraries: aiohttp's ContentTypeError,
   json.JSONDecodeError or pydantic's ValidationError, the last two
   subclasses of ValueError. *)
Inductive exn : Type :=
| ValueError (msg : string)
| OSError
| ClientResponseError (status : Z)
| InvalidResponse.

(* The answer to a request: a success status with a body that reads as an
   [A], an error status, or a success status with a body that does not. *)
Inductive result (A : Type) : Type :=
| Ok (a : A)
| Err (status : Z)
| Invalid.
Arguments Ok {A} a.
Arguments Err {A} status.
Arguments Invalid {A}.

(* os.DirEntry *)
Record DirEntry : Type := mkEntry {
  path : string;
  is_dir : bool
}.

(* utils.Library *)
Record Library : Type := mkLibrary {
  Name : string;
  Locations : list string
}.

(* The POST of add_path_to_library: body Name and PathInfo.Path, query
   parameter refreshLibrary. *)
Record Request : Type := mkRequest {
  body_Name : string;
  body_Path : string;
  refreshLibrary : string
}.

Record World : Type := mkWorld {
  scandir : string -> option (list DirEntry);   (* None: OSError *)
  virtual_folders : result (list Library);      (* GET /Library/VirtualFolders *)
  post_paths : Request -> result unit           (* POST /Library/VirtualFolders/Paths *)
}.

(* JellyfinAPIClient.get_libraries *)
Definition get_libraries (w : World) : exn + list Library :=
  match virtual_folders w with
  | Err status => inl (ClientResponseError status)      (* raise_for_status *)
  | Invalid => inl InvalidResponse                      (* json(), model_validate *)
  | Ok libraries => inr libraries
  end.

(* JellyfinAPIClient.add_path_to_library: the request made and the
   exception raised, if any. *)
Definition add_path_to_library (w : World) (library_name folder_path : string)
    (refresh_library : bool) : Request * option exn :=
  let request :=
    mkRequest library_name folder_path
      (if refresh_library then "true"%string else "false"%string)
      (* str(refresh_library).lower() *) in
  (request,
   match post_paths w request with
   | Err status => Some (ClientResponseError status)    (* raise_for_status *)
   | _ => None                                          (* the body is not read *)
   end).

Inductive Call : Type :=
| CScandir (folder : string)
| CGet
| CPost (request : Request).

Inductive Message : Type :=
| NoNewPaths                                  (* "No new subdirectory paths to add, exiting." *)
| Added (count : nat) (library : string).     (* "Added {len(paths)} new paths to library '{library.Name}'." *)

Record Run : Type := mkRun {
  calls : option (list Call);   (* None: cut short inside gather, not determined *)
  messages : list Message;
  outcome : option exn
}.

(* The set comprehension of lines 56-62. *)
Definition candidate_paths (path_replace_from path_replace_to : option string)
    (entries : list DirEntry) : list string :=
  set_of
    (map (fun dir =>
            if truthy path_replace_from && truthy path_replace_to
            then str_replace (text path_replace_from) (text path_replace_to)
                   (path dir)
            else path dir)
       (filter is_dir entries)).

(* The first exception among the responses, in the order they came back. *)
Fixpoint first_error (responses : list (Request * option exn)) : option exn :=
  match responses with
  | [] => None
  | (_, Some e) :: _ => Some e
  | (_, None) :: rest => first_error rest
  end.

Definition add_all_subdirectories_to_library (w : World)
    (sets network : Ordering) (library_name parent_folder_path : string)
    (api_key path_replace_from path_replace_to : option string) : Run :=
  if negb (truthy api_key) then
    mkRun (Some []) []
      (Some (ValueError "JELLYFIN_API_KEY environment variable must be set or the --api-key option must be provided."))
  else if (truthy path_replace_from && negb (truthy path_replace_to))
          || (truthy path_replace_to && negb (truthy path_replace_from)) then
    mkRun (Some []) []
      (Some (ValueError "Both --path-replace-from and --path-replace-to must be provided together."))
  else
    match scandir w parent_folder_path with
    | None => mkRun (Some [CScandir parent_folder_path]) [] (Some OSError)
    | Some entries =>
        let paths :=
          candidate_paths path_replace_from path_replace_to entries in
        let begun := [CScandir parent_folder_path; CGet] in
        match get_libraries w with
        | inl e => mkRun (Some begun) [] (Some e)
        | inr existing_libraries =>
            match find (fun lib => String.eqb (Name lib) library_name)
                    existing_libraries with
            | None =>
                mkRun (Some begun) []
                  (Some (ValueError
                           (String.append "Library with name '"
                              (String.append library_name "' not found."))))
            | Some library =>
                let existing_paths := set_of (Locations library) in
                let new_paths := set_difference paths existing_paths in
                match arrange sets new_paths with
                | [] => mkRun (Some begun) [NoNewPaths] None
                | last_path :: _ =>                      (* new_paths.pop() *)
                    let new_paths := set_remove last_path new_paths in
                    let responses :=
                      arrange network
                        (map (fun path =>
                                add_path_to_library w (Name library) path false)
                           (arrange sets new_paths)) in
                    match first_error responses with
                    | Some e => mkRun None [] (Some e)
                    | None =>
                        let last :=
                          add_path_to_library w (Name library) last_path true in
                        let made :=
                          begun ++ map (fun r => CPost (fst r)) responses
                            ++ [CPost (fst last)] in
                        match snd last with
                        | Some e => mkRun (Some made) [] (Some e)
                        | None =>
                            mkRun (Some made)
                              [Added (List.length paths) (Name library)] None
                        end
                    end
                end
            end
        end
    end.

(* The paths of the POSTs among some calls, in order. *)
Definition posted (cs : list Call) : list Request :=
  flat_map (fun c => match c with CPost r => [r] | _ => [] end) cs.

(* A server that accepts every request and has, among others, the library
   "Shows" with one location and the library "Archive" with three; and a
   folder with two directories and a file. *)
Module Example.
Definition world : World :=
  mkWorld
    (fun _ => Some [mkEntry "/mnt/tv/A" true; mkEntry "/mnt/tv/B" true;
                    mkEntry "/mnt/tv/notes.txt" false])
    (Ok [mkLibrary "Films" []; mkLibrary "Shows" ["/data/tv/A"%string];
         mkLibrary "Archive" ["/mnt/tv/B"; "/old"; "/mnt/tv/A"]%string])
    (fun _ => Ok tt).
End Example.

End Jellyfin.

(** * Properties *)

(** ** Paths *)

Lemma parts_eqb_eq (a b : list string) : parts_eqb a b = true <-> a = b.
Proof.
  revert b; induction a as [|x a IH]; intros [|y b]; simpl;
    try (split; [discriminate | discriminate]); try tauto.
  rewrite andb_true_iff, String.eqb_eq, IH.
  split; [intros [-> ->]; reflexivity | intros E; inversion E; auto].
Qed.

Lemma Path_eqb_eq (p q : Path) : Path_eqb p q = true <-> p = q.
Proof.
  destruct p as [a ps], q as [b qs]; unfold Path_eqb; simpl.
  rewrite andb_true_iff, parts_eqb_eq, Bool.eqb_true_iff.
  split; [intros [-> ->]; reflexivity | intros E; inversion E; auto].
Qed.

Lemma prefix_of_spec (a b : list string) :
  prefix_of a b = true <-> exists suffix, b = a ++ suffix.
Proof.
  revert b; induction a as [|x a IH]; intros b; simpl.
  - split; [intros _; exists b; reflexivity | reflexivity].
  - destruct b as [|y b].
    + split; [discriminate | intros [s E]; discriminate].
    + rewrite andb_true_iff, String.eqb_eq, IH. split.
      * intros [-> [s ->]]. exists s. reflexivity.
      * intros [s E]. inversion E; subst. split; [reflexivity | exists s; reflexivity].
Qed.

Lemma is_relative_to_spec (self other : Path) :
  is_relative_to self other = true
  <-> is_absolute self = is_absolute other
      /\ exists below, parts self = parts other ++ below.
Proof.
  unfold is_relative_to.
  rewrite andb_true_iff, Bool.eqb_true_iff, prefix_of_spec. reflexivity.
Qed.

Lemma joinpath_inj (d d' : Path) (f f' : string) :
  joinpath d f = joinpath d' f' -> d = d' /\ f = f'.
Proof.
  destruct d as [a ps], d' as [b qs]; unfold joinpath; simpl.
  intros E; inversion E as [[Ea Ep]].
  apply app_inj_tail in Ep. destruct Ep as [-> ->]. split; reflexivity.
Qed.

(** ** Dictionaries *)

Lemma dict_contains_In (V : Type) (k : Z) (d : dict Z V) :
  dict_contains Z.eqb k d = true -> In k (dict_keys d).
Proof.
  unfold dict_contains. induction d as [|[k' v] d IH]; simpl.
  - discriminate.
  - destruct (Z.eqb_spec k k') as [->|_]; [left; reflexivity | right; auto].
Qed.

Lemma In_dict_contains (V : Type) (k : Z) (d : dict Z V) :
  In k (dict_keys d) -> dict_contains Z.eqb k d = true.
Proof.
  unfold dict_contains. induction d as [|[k' v] d IH]; simpl.
  - intros [].
  - destruct (Z.eqb_spec k k') as [->|N]; [reflexivity|].
    intros [E|H]; [congruence | auto].
Qed.

(* Appending keeps every entry that satisfies [Q] satisfying it, provided [Q]
   survives the append and holds of a fresh one-element group. *)
Lemma defaultdict_append_Forall (A : Type) (Q : Z -> list A -> Prop)
    (k : Z) (x : A) (d : dict Z (list A)) :
  Q k [x] ->
  (forall l, Q k l -> Q k (l ++ [x])) ->
  Forall (fun e => Q (fst e) (snd e)) d ->
  Forall (fun e => Q (fst e) (snd e)) (defaultdict_append Z.eqb k x d).
Proof.
  intros Hnew Hext. induction 1 as [|[k' l] d Hq Hd IH]; simpl.
  - constructor; [exact Hnew | constructor].
  - destruct (Z.eqb_spec k k') as [->|_].
    + constructor; [simpl in *; auto | exact Hd].
    + constructor; [exact Hq | exact IH].
Qed.

(* Appending under a key that is present changes no key and only extends
   groups: a relation to an earlier dictionary that tolerates the extension
   is kept. *)
Lemma defaultdict_append_Forall2 (A : Type)
    (R : Z * list A -> Z * list A -> Prop)
    (k : Z) (x : A) (d0 d : dict Z (list A)) :
  (forall e l, R e (k, l) -> R e (k, l ++ [x])) ->
  dict_contains Z.eqb k d = true ->
  Forall2 R d0 d ->
  Forall2 R d0 (defaultdict_append Z.eqb k x d).
Proof.
  intros Hext Hin H. induction H as [|e0 [k' l] d0 d Hr Hd IH]; simpl.
  - discriminate Hin.
  - unfold dict_contains in Hin, IH. simpl in Hin.
    destruct (Z.eqb_spec k k') as [->|_].
    + constructor; [apply Hext; exact Hr | exact Hd].
    + constructor; [exact Hr | apply IH; exact Hin].
Qed.

Lemma defaultdict_append_keys (A : Type) (k : Z) (x : A) (d : dict Z (list A)) :
  dict_contains Z.eqb k d = true ->
  dict_keys (defaultdict_append Z.eqb k x d) = dict_keys d.
Proof.
  unfold dict_contains. induction d as [|[k' l] d IH]; simpl.
  - discriminate.
  - destruct (Z.eqb_spec k k') as [->|_]; simpl; [reflexivity|].
    intros H. rewrite IH; auto.
Qed.

(** ** Running the workers *)

Lemma run_workers_cons (w : Path -> Store -> Step) (p : Path)
    (l : list Path) (s : Store) :
  snd (run_workers w (p :: l) s) = snd (run_workers w l (after (w p s))).
Proof.
  simpl. destruct (run_workers w l (after (w p s))); reflexivity.
Qed.

Lemma run_workers_app (w : Path -> Store -> Step) (l1 l2 : list Path) (s : Store) :
  snd (run_workers w (l1 ++ l2) s)
  = snd (run_workers w l2 (snd (run_workers w l1 s))).
Proof.
  revert s; induction l1 as [|p l1 IH]; intros s.
  - reflexivity.
  - rewrite <- app_comm_cons, !run_workers_cons. apply IH.
Qed.

(* A call that leaves the store as it found it can be dropped. *)
Lemma run_workers_drop (w : Path -> Store -> Step) (p : Path)
    (before rest : list Path) (s0 : Store) :
  (forall s, after (w p s) = s) ->
  snd (run_workers w (before ++ p :: rest) s0)
  = snd (run_workers w (before ++ rest) s0).
Proof.
  intros H. rewrite !run_workers_app, run_workers_cons, H. reflexivity.
Qed.

Section Phases.
Variable fs : FileSystem.
Variable originals_directory_path : Path.

(** The indexer: every group is non-empty and made of indexed paths. *)

Lemma add_file_inode_to_map_ok (calls : list Path) (p : Path) (s : Store) :
  In p calls ->
  Forall (fun e => index_ok fs calls (fst e) (snd e)) (paths_per_inode s) ->
  Forall (fun e => index_ok fs calls (fst e) (snd e))
    (paths_per_inode (after (add_file_inode_to_map fs p s))).
Proof.
  intros Hp Hs. unfold add_file_inode_to_map.
  destruct (stat fs p) as [inode|e] eqn:Est.
  - simpl. apply defaultdict_append_Forall; auto.
    + split; [discriminate|]. constructor; [split; assumption | constructor].
    + intros l [Hne Hl]. split.
      * destruct l; discriminate.
      * apply Forall_app. split; [exact Hl|].
        constructor; [split; assumption | constructor].
  - destruct e; exact Hs.
Qed.

Lemma index_run_ok (calls l : list Path) (s : Store) :
  incl l calls ->
  Forall (fun e => index_ok fs calls (fst e) (snd e)) (paths_per_inode s) ->
  Forall (fun e => index_ok fs calls (fst e) (snd e))
    (paths_per_inode (snd (run_workers (add_file_inode_to_map fs) l s))).
Proof.
  revert s; induction l as [|p l IH]; intros s Hl Hs.
  - exact Hs.
  - rewrite run_workers_cons. apply IH.
    + intros x Hx. apply Hl. right. exact Hx.
    + apply add_file_inode_to_map_ok; [apply Hl; left; reflexivity | exact Hs].
Qed.

(** The classifier: keys stay, groups grow by discovered paths only. *)

Lemma extends_refl (skip_symlinks : bool) (calls : list Path) (d : dict Z (list Path)) :
  Forall2 (extends fs skip_symlinks originals_directory_path calls) d d.
Proof.
  induction d as [|e d IH]; constructor; [|exact IH].
  split; [reflexivity|]. exists []. rewrite app_nil_r. split; [reflexivity | constructor].
Qed.

Lemma check_inode_extends (skip_symlinks : bool) (calls : list Path) (d0 : dict Z (list Path))
    (p target : Path) (s : Store) :
  In p calls ->
  reaches fs skip_symlinks p target ->
  Forall2 (extends fs skip_symlinks originals_directory_path calls) d0 (paths_per_inode s) ->
  Forall2 (extends fs skip_symlinks originals_directory_path calls) d0
    (paths_per_inode (after (check_inode fs originals_directory_path target s))).
Proof.
  intros Hp Hr Hs. unfold check_inode.
  destruct (is_relative_to target originals_directory_path) eqn:Erel; [exact Hs|].
  destruct (stat fs target) as [inode|e] eqn:Est; [|destruct e; exact Hs].
  simpl. destruct (dict_contains Z.eqb inode (paths_per_inode s)) eqn:Ein; [|exact Hs].
  simpl. apply defaultdict_append_Forall2; [|exact Ein|exact Hs].
  intros e l [Hk [app [Hl Happ]]]. simpl in Hk, Hl.
  split; [exact Hk|]. exists (app ++ [target]). simpl. split.
  - rewrite Hl, app_assoc. reflexivity.
  - apply Forall_app. split; [exact Happ|].
    constructor; [|constructor]. exists p. rewrite <- Hk. auto.
Qed.

Lemma check_if_file_is_hardlink_extends (skip_symlinks : bool) (calls : list Path)
    (d0 : dict Z (list Path)) (p : Path) (s : Store) :
  In p calls ->
  Forall2 (extends fs skip_symlinks originals_directory_path calls) d0 (paths_per_inode s) ->
  Forall2 (extends fs skip_symlinks originals_directory_path calls) d0
    (paths_per_inode
       (after (check_if_file_is_hardlink fs skip_symlinks
                 originals_directory_path p s))).
Proof.
  intros Hp Hs. unfold check_if_file_is_hardlink.
  destruct (is_symlink fs p) eqn:Esym.
  - destruct skip_symlinks eqn:Eskip; [exact Hs|].
    destruct (resolve fs p) as [target|e] eqn:Eres; [|destruct e; exact Hs].
    simpl. apply check_inode_extends with (p := p); auto.
    right. auto.
  - simpl. apply check_inode_extends with (p := p); auto.
    left. auto.
Qed.

Lemma classify_run_extends (skip_symlinks : bool) (calls l : list Path) (d0 : dict Z (list Path))
    (s : Store) :
  incl l calls ->
  Forall2 (extends fs skip_symlinks originals_directory_path calls) d0 (paths_per_inode s) ->
  Forall2 (extends fs skip_symlinks originals_directory_path calls) d0
    (paths_per_inode
       (snd (run_workers
               (check_if_file_is_hardlink fs skip_symlinks originals_directory_path)
               l s))).
Proof.
  revert s; induction l as [|p l IH]; intros s Hl Hs.
  - exact Hs.
  - rewrite run_workers_cons. apply IH.
    + intros x Hx. apply Hl. right. exact Hx.
    + apply check_if_file_is_hardlink_extends; [apply Hl; left; reflexivity | exact Hs].
Qed.

Lemma check_inode_keeps_inode_map (target : Path) (s : Store) :
  originals_inode_map (after (check_inode fs originals_directory_path target s))
  = originals_inode_map s.
Proof.
  unfold check_inode.
  destruct (is_relative_to target originals_directory_path); [reflexivity|].
  destruct (stat fs target) as [inode|e]; [|destruct e; reflexivity].
  simpl. destruct (dict_contains Z.eqb inode (paths_per_inode s)); reflexivity.
Qed.
End Phases.

Lemma Forall2_extends_keys (fs : FileSystem) (o : Path) (skip : bool)
    (calls : list Path) (d0 d : dict Z (list Path)) :
  Forall2 (extends fs skip o calls) d0 d -> dict_keys d = dict_keys d0.
Proof.
  induction 1 as [|e0 e d0 d [Hk _] _ IH]; simpl; [reflexivity|].
  rewrite Hk, IH. reflexivity.
Qed.

Lemma Forall2_In_r (A B : Type) (R : A -> B -> Prop) (l : list A) (l' : list B) (y : B) :
  Forall2 R l l' -> In y l' -> exists x, In x l /\ R x y.
Proof.
  induction 1 as [|a b l l' Hr _ IH]; simpl; [intros []|].
  intros [<-|Hy].
  - exists a. auto.
  - destruct (IH Hy) as [x [Hx Hxy]]. exists x. auto.
Qed.

(** ** The scan as a whole *)

Section ScanFacts.
Variable fs : FileSystem.
Variables pool1 pool2 : Executor.
Variables root_directory originals_directory : Path.
Variable skip_symlinks : bool.
Variable skip_directories : list Path.

Local Abbreviation o_path := (absolute fs originals_directory).
Local Abbreviation o_calls := (originals_calls (walk fs o_path)).
Local Abbreviation r_calls :=
  (root_calls skip_directories (walk fs (absolute fs root_directory))).
Local Abbreviation indexed_store := (index_originals fs pool1 originals_directory).
Local Abbreviation scanned :=
  (snd (scan fs pool1 pool2 root_directory originals_directory
          skip_symlinks skip_directories)).

Lemma scan_store :
  scanned
  = snd (run_workers (check_if_file_is_hardlink fs skip_symlinks o_path)
           (order pool2 r_calls) indexed_store).
Proof.
  unfold scan, index_originals, run_pool.
  destruct (run_workers (add_file_inode_to_map fs) _ empty_store) as [ev1 s1].
  simpl.
  destruct (run_workers (check_if_file_is_hardlink fs _ _) _ s1) as [ev2 s2].
  reflexivity.
Qed.

Lemma indexed_store_ok :
  Forall (fun e => index_ok fs o_calls (fst e) (snd e))
    (paths_per_inode indexed_store).
Proof.
  unfold index_originals, run_pool. apply index_run_ok; [|constructor].
  intros x Hx. apply (Permutation_in x (order_perm pool1 o_calls) Hx).
Qed.

Lemma scan_extends :
  Forall2 (extends fs skip_symlinks o_path r_calls)
    (paths_per_inode indexed_store) (paths_per_inode scanned).
Proof.
  rewrite scan_store. apply classify_run_extends; [|apply extends_refl].
  intros x Hx. apply (Permutation_in x (order_perm pool2 r_calls) Hx).
Qed.

(* Every group at emission time: an indexed, non-empty group followed by
   what the classifier discovered. *)
Lemma scan_groups (inode : Z) (paths : list Path) :
  In (inode, paths) (paths_per_inode scanned) ->
  exists originals appended,
    paths = originals ++ appended
    /\ In (inode, originals) (paths_per_inode indexed_store)
    /\ index_ok fs o_calls inode originals
    /\ Forall (discovered fs skip_symlinks o_path r_calls inode) appended.
Proof.
  intros Hin.
  destruct (Forall2_In_r _ scan_extends Hin) as [[k0 g0] [H0 [Hk [app [Hg Happ]]]]].
  simpl in Hk, Hg, Happ. subst k0.
  exists g0, app. repeat split; auto.
  - pose proof indexed_store_ok as Hok. rewrite Forall_forall in Hok.
    apply (Hok _ H0).
  - pose proof indexed_store_ok as Hok. rewrite Forall_forall in Hok.
    apply (Hok _ H0).
Qed.

Lemma scan_keys :
  dict_keys (paths_per_inode scanned) = dict_keys (paths_per_inode indexed_store).
Proof. exact (Forall2_extends_keys scan_extends). Qed.

Lemma scan_groups_nonempty :
  Forall (fun paths => paths <> []) (dict_values (paths_per_inode scanned)).
Proof.
  rewrite Forall_forall. intros g Hg. unfold dict_values in Hg.
  apply in_map_iff in Hg. destruct Hg as [[k g'] [E Hin]]. simpl in E. subst g'.
  destruct (scan_groups _ _ Hin) as [g0 [app [-> [_ [[Hne _] _]]]]].
  destruct g0; [congruence | discriminate].
Qed.
End ScanFacts.

(** ** The emitter *)

Lemma map_nth_seq (A : Type) (l : list A) (d : A) :
  map (fun i => nth i l d) (seq 0 (List.length l)) = l.
Proof.
  induction l as [|a l IH]; simpl; [reflexivity|].
  rewrite <- seq_shift, map_map. simpl. rewrite IH. reflexivity.
Qed.

Lemma emit_group_cons (include : bool) (min_links : Z)
    (original_file : Path) (rest : list Path) :
  emit_group include min_links (original_file :: rest)
  = if Z.of_nat (List.length rest) >=? min_links
    then ((if include then [original_file] else []) ++ rest, None)
    else ([], None).
Proof.
  unfold emit_group, range.
  replace (Z.of_nat (List.length (original_file :: rest)) - 1)
    with (Z.of_nat (List.length rest)) by (simpl List.length; lia).
  destruct (Z.of_nat (List.length rest) >=? min_links); [|reflexivity].
  replace (List.length (original_file :: rest) - 1)%nat
    with (List.length rest) by (simpl; lia).
  rewrite <- seq_shift, map_map. simpl nth. rewrite map_nth_seq. reflexivity.
Qed.

Lemma block_cons (include : bool) (min_links : Z)
    (original_file : Path) (rest : list Path) :
  block include min_links (original_file :: rest)
  = if Z.of_nat (List.length rest) >=? min_links
    then (if include then [original_file] else []) ++ rest
    else [].
Proof.
  unfold block. rewrite emit_group_cons.
  destruct (Z.of_nat (List.length rest) >=? min_links); reflexivity.
Qed.

Lemma block_incl (include : bool) (min_links : Z) (paths : list Path) (p : Path) :
  In p (block include min_links paths) -> In p paths.
Proof.
  destruct paths as [|o rest]; [intros []|].
  rewrite block_cons.
  destruct (Z.of_nat (List.length rest) >=? min_links); [|intros []].
  destruct include; simpl; tauto.
Qed.


Lemma emit_nonempty (include : bool) (min_links : Z) (groups : list (list Path)) :
  Forall (fun paths => paths <> []) groups ->
  emit include min_links groups
  = (List.concat (map (block include min_links) groups), None).
Proof.
  induction 1 as [|g groups Hg _ IH]; simpl; [reflexivity|].
  destruct g as [|o rest]; [congruence|].
  unfold block at 1. rewrite emit_group_cons.
  destruct (Z.of_nat (List.length rest) >=? min_links); rewrite IH; reflexivity.
Qed.

(** ** The shape of a run *)

Lemma find_hardlinks_invalid (fs : FileSystem) (pool1 pool2 : Executor)
    (root_directory originals_directory : Path) (min_links : Z)
    (to_file : option Path) (append_to_file skip_symlinks include : bool)
    (skip_directories : list Path) :
  min_links < 1 ->
  find_hardlinks fs pool1 pool2 root_directory originals_directory min_links
    to_file append_to_file skip_symlinks include skip_directories
  = mkRun [] empty_store []
      (Some (ValueError "min_links must be at least 1"%string)).
Proof.
  intros Hlt. unfold find_hardlinks.
  destruct (Z.ltb_spec min_links 1) as [_|Hge]; [reflexivity | lia].
Qed.

Lemma find_hardlinks_run (fs : FileSystem) (pool1 pool2 : Executor)
    (root_directory originals_directory : Path) (min_links : Z)
    (to_file : option Path) (append_to_file skip_symlinks include : bool)
    (skip_directories : list Path) :
  1 <= min_links ->
  let r := find_hardlinks fs pool1 pool2 root_directory originals_directory
             min_links to_file append_to_file skip_symlinks include
             skip_directories in
  let sc := scan fs pool1 pool2 root_directory originals_directory
              skip_symlinks skip_directories in
  (exists f e, to_file = Some f
     /\ open_file fs f (if append_to_file then mode_a else mode_w) = FsErr e
     /\ r = mkRun [EOpen f (if append_to_file then mode_a else mode_w)]
              empty_store [] (Some (OSError e)))
  \/ (final r = snd sc
      /\ printed r
         = List.concat (map (block include min_links)
                     (dict_values (paths_per_inode (snd sc))))
      /\ outcome r = None
      /\ exists opened, log r = opened ++ fst sc).
Proof.
  intros Hmin r sc. subst r. unfold find_hardlinks.
  destruct (Z.ltb_spec min_links 1) as [Hlt|_]; [lia|].
  assert (Hemit : emit include min_links (dict_values (paths_per_inode (snd sc)))
                  = (List.concat (map (block include min_links)
                       (dict_values (paths_per_inode (snd sc)))), None)).
  { apply emit_nonempty. apply scan_groups_nonempty. }
  destruct to_file as [f|]; simpl.
  - destruct (open_file fs f (if append_to_file then mode_a else mode_w))
      as [u|e] eqn:Eopen.
    + right. fold sc. destruct sc as [ev s]. simpl in *. rewrite Hemit. simpl.
      repeat split. exists [EOpen f (if append_to_file then mode_a else mode_w)].
      reflexivity.
    + left. exists f, e. repeat split; auto.
  - right. fold sc. destruct sc as [ev s]. simpl in *. rewrite Hemit. simpl.
    repeat split. exists []. reflexivity.
Qed.

Lemma scan_log_nonempty (fs : FileSystem) (pool1 pool2 : Executor)
    (root_directory originals_directory : Path) (skip_symlinks : bool)
    (skip_directories : list Path) :
  fst (scan fs pool1 pool2 root_directory originals_directory
         skip_symlinks skip_directories) <> [].
Proof.
  unfold scan.
  destruct (run_pool pool1 _ _ empty_store) as [ev1 s1].
  destruct (run_pool pool2 _ _ s1) as [ev2 s2]. simpl. discriminate.
Qed.

Lemma block_nonempty_iff (include : bool) (min_links : Z) (paths : list Path) :
  1 <= min_links ->
  (block include min_links paths <> [] <-> min_links <= Z.of_nat (List.length paths) - 1)
  /\ (block include min_links paths = [] <-> Z.of_nat (List.length paths) - 1 < min_links).
Proof.
  intros Hmin. destruct paths as [|o rest].
  - unfold block; simpl. split; split; try congruence; try lia.
  - rewrite block_cons.
    replace (Z.of_nat (List.length (o :: rest)) - 1)
      with (Z.of_nat (List.length rest)) by (simpl List.length; lia).
    destruct (Z.geb_spec (Z.of_nat (List.length rest)) min_links) as [Hge|Hlt].
    + assert (Hne : (if include then [o] else []) ++ rest <> []).
      { destruct rest as [|x rest]; [simpl in Hge; lia|].
        destruct include; discriminate. }
      split; split; intros; try lia; try assumption. contradiction.
    + split; split; intros; try lia; try congruence.
Qed.

(** ** The claims *)

Unset Implicit Arguments.

(** C5: a [min_links] below 1 makes [find_hardlinks] raise its ValueError
    with nothing done before it: the log of file-system accesses is empty (no
    output file opened, no directory walked, no stat), nothing is printed and
    the dictionaries are untouched.  From 1 on that error is never raised,
    and the run does reach the file system. *)
Theorem C5_min_links_checked_first (fs : FileSystem) (pool1 pool2 : Executor)
    (root_directory originals_directory : Path) (min_links : Z)
    (to_file : option Path) (append_to_file skip_symlinks include : bool)
    (skip_directories : list Path) :
  (min_links < 1 ->
   find_hardlinks fs pool1 pool2 root_directory originals_directory min_links
     to_file append_to_file skip_symlinks include skip_directories
   = mkRun [] empty_store []
       (Some (ValueError "min_links must be at least 1"%string)))
  /\ (1 <= min_links ->
      (forall msg,
         outcome (find_hardlinks fs pool1 pool2 root_directory
                    originals_directory min_links to_file append_to_file
                    skip_symlinks include skip_directories)
         <> Some (ValueError msg))
      /\ log (find_hardlinks fs pool1 pool2 root_directory
                originals_directory min_links to_file append_to_file
                skip_symlinks include skip_directories) <> []).
Proof.
  split.
  - apply find_hardlinks_invalid.
  - intros Hmin.
    destruct (find_hardlinks_run fs pool1 pool2 root_directory
                originals_directory to_file append_to_file skip_symlinks
                include skip_directories Hmin)
      as [[f [e [_ [_ ->]]]] | [_ [_ [Hout [opened Hlog]]]]]; simpl.
    + split; [intros msg; discriminate | discriminate].
    + rewrite Hout, Hlog. split; [intros msg; discriminate|].
      intros E. apply app_eq_nil in E. destruct E as [_ E].
      exact (scan_log_nonempty _ _ _ _ _ _ _ E).
Qed.

Lemma C5_witness :
  find_hardlinks Example1.fs fifo fifo Example1.root Example1.originals 0
    None true true false []
  = mkRun [] empty_store []
      (Some (ValueError "min_links must be at least 1"%string))
  /\ log (find_hardlinks Example1.fs fifo fifo Example1.root
            Example1.originals 1 None true true false []) <> [].
Proof.
  split.
  - apply (proj1 (C5_min_links_checked_first Example1.fs fifo fifo
                    Example1.root Example1.originals 0 None true true false [])).
    lia.
  - apply (proj2 (C5_min_links_checked_first Example1.fs fifo fifo
                    Example1.root Example1.originals 1 None true true false [])).
    lia.
Defined.

(** C2: with [min_links] at least 1, the output of a run is the
    concatenation of the blocks of the groups of PathsPerInode, and the block
    of a group has lines if and only if the group has at least [min_links]
    entries beyond its first one; below that it has no line at all. *)
Theorem C2_group_emitted_iff_enough_links (fs : FileSystem)
    (pool1 pool2 : Executor) (root_directory originals_directory : Path)
    (min_links : Z) (to_file : option Path)
    (append_to_file skip_symlinks include : bool)
    (skip_directories : list Path) :
  1 <= min_links ->
  printed (find_hardlinks fs pool1 pool2 root_directory originals_directory
             min_links to_file append_to_file skip_symlinks include
             skip_directories)
  = List.concat
      (map (block include min_links)
         (dict_values
            (paths_per_inode
               (final (find_hardlinks fs pool1 pool2 root_directory
                         originals_directory min_links to_file append_to_file
                         skip_symlinks include skip_directories)))))
  /\ forall paths : list Path,
       (block include min_links paths <> []
        <-> min_links <= Z.of_nat (List.length paths) - 1)
       /\ (block include min_links paths = []
           <-> Z.of_nat (List.length paths) - 1 < min_links).
Proof.
  intros Hmin. split.
  - destruct (find_hardlinks_run fs pool1 pool2 root_directory
                originals_directory to_file append_to_file skip_symlinks
                include skip_directories Hmin)
      as [[f [e [_ [_ ->]]]] | [Hfin [Hpr _]]]; simpl.
    + reflexivity.
    + rewrite Hpr, Hfin. reflexivity.
  - intros paths. apply block_nonempty_iff. exact Hmin.
Qed.

Lemma C2_witness :
  printed (find_hardlinks Example1.fs fifo fifo Example1.root
             Example1.originals 1 None true true false [])
  = List.concat
      (map (block false 1)
         (dict_values
            (paths_per_inode
               (final (find_hardlinks Example1.fs fifo fifo Example1.root
                         Example1.originals 1 None true true false [])))))
  /\ forall paths : list Path,
       (block false 1 paths <> [] <-> 1 <= Z.of_nat (List.length paths) - 1)
       /\ (block false 1 paths = [] <-> Z.of_nat (List.length paths) - 1 < 1).
Proof.
  apply (C2_group_emitted_iff_enough_links Example1.fs fifo fifo Example1.root
           Example1.originals 1 None true true false []).
  lia.
Defined.



(** C10: when the emitter runs, no group of PathsPerInode is empty: the
    keys are those the indexer created, each with a path appended in the same
    step, and the classifier adds none.  So [paths[0]] never fails: the loop
    ends without an exception and [find_hardlinks] never raises IndexError. *)
Theorem C10_groups_never_empty (fs : FileSystem) (pool1 pool2 : Executor)
    (root_directory originals_directory : Path)
    (skip_symlinks : bool) (skip_directories : list Path) :
  Forall (fun paths => paths <> [])
    (dict_values
       (paths_per_inode
          (snd (scan fs pool1 pool2 root_directory originals_directory
                  skip_symlinks skip_directories))))
  /\ dict_keys
       (paths_per_inode
          (snd (scan fs pool1 pool2 root_directory originals_directory
                  skip_symlinks skip_directories)))
     = dict_keys (paths_per_inode (index_originals fs pool1 originals_directory))
  /\ Forall (fun e => snd e <> [])
       (paths_per_inode (index_originals fs pool1 originals_directory))
  /\ forall (include : bool) (min_links : Z) (to_file : option Path)
            (append_to_file : bool),
       snd (emit include min_links
              (dict_values
                 (paths_per_inode
                    (snd (scan fs pool1 pool2 root_directory
                            originals_directory skip_symlinks
                            skip_directories))))) = None
       /\ outcome (find_hardlinks fs pool1 pool2 root_directory
                     originals_directory min_links to_file append_to_file
                     skip_symlinks include skip_directories)
          <> Some IndexError.
Proof.
  split; [apply scan_groups_nonempty|].
  split; [apply scan_keys|].
  split.
  { eapply Forall_impl; [|apply indexed_store_ok].
    intros e [Hne _]. exact Hne. }
  intros include min_links to_file append_to_file. split.
  - rewrite emit_nonempty; [reflexivity | apply scan_groups_nonempty].
  - destruct (Z.ltb_spec min_links 1) as [Hlt|Hge].
    + rewrite find_hardlinks_invalid by exact Hlt. simpl. discriminate.
    + destruct (find_hardlinks_run fs pool1 pool2 root_directory
                  originals_directory to_file append_to_file skip_symlinks
                  include skip_directories Hge)
        as [[f [e [_ [_ ->]]]] | [_ [_ [Hout _]]]]; simpl.
      * discriminate.
      * rewrite Hout. discriminate.
Qed.

(** ** What one classifier call does *)


Lemma check_inode_vanished (fs : FileSystem) (o : Path) (target : Path) (s : Store) :
  stat fs target = FsErr ENOENT ->
  after (check_inode fs o target s) = s /\ raised (check_inode fs o target s) = None.
Proof.
  intros H. unfold check_inode.
  destruct (is_relative_to target o); [split; reflexivity|].
  rewrite H. split; reflexivity.
Qed.

(* Whatever holds of [check_inode] on the path reached holds of the call. *)
Lemma check_if_file_is_hardlink_reaches (fs : FileSystem) (skip : bool)
    (o file_path target : Path) (s : Store) :
  reaches fs skip file_path target ->
  after (check_if_file_is_hardlink fs skip o file_path s)
  = after (check_inode fs o target s)
  /\ raised (check_if_file_is_hardlink fs skip o file_path s)
     = raised (check_inode fs o target s).
Proof.
  unfold check_if_file_is_hardlink.
  intros [[Hsym ->] | [Hsym [-> Hres]]]; rewrite Hsym.
  - split; reflexivity.
  - rewrite Hres. split; reflexivity.
Qed.

Lemma check_if_file_is_hardlink_skips (fs : FileSystem) (o file_path : Path)
    (s : Store) :
  is_symlink fs file_path = true ->
  check_if_file_is_hardlink fs true o file_path s = mkStep [ELstat file_path] s None.
Proof. intros H. unfold check_if_file_is_hardlink. rewrite H. reflexivity. Qed.

(** C6: a file whose stat raises FileNotFoundError is passed over in both
    phases.  The indexer's call leaves both dictionaries as they were and
    ends without an exception, and so does the classifier's call, whether it
    stats the path itself or the target of the link it followed; the store
    the phase ends with is the one it would end with had the file never been
    submitted, wherever the call falls in the schedule. *)
Theorem C6_vanished_file_passed_over (fs : FileSystem) (skip_symlinks : bool)
    (originals_directory_path file_path target : Path) :
  (stat fs file_path = FsErr ENOENT ->
   (forall s,
      after (add_file_inode_to_map fs file_path s) = s
      /\ raised (add_file_inode_to_map fs file_path s) = None)
   /\ forall before rest s0,
        snd (run_workers (add_file_inode_to_map fs)
               (before ++ file_path :: rest) s0)
        = snd (run_workers (add_file_inode_to_map fs) (before ++ rest) s0))
  /\ (reaches fs skip_symlinks file_path target ->
      stat fs target = FsErr ENOENT ->
      (forall s,
         after (check_if_file_is_hardlink fs skip_symlinks
                  originals_directory_path file_path s) = s
         /\ raised (check_if_file_is_hardlink fs skip_symlinks
                      originals_directory_path file_path s) = None)
      /\ forall before rest s0,
           snd (run_workers
                  (check_if_file_is_hardlink fs skip_symlinks
                     originals_directory_path)
                  (before ++ file_path :: rest) s0)
           = snd (run_workers
                    (check_if_file_is_hardlink fs skip_symlinks
                       originals_directory_path)
                    (before ++ rest) s0)).
Proof.
  split.
  - intros Hst.
    assert (H : forall s,
               after (add_file_inode_to_map fs file_path s) = s
               /\ raised (add_file_inode_to_map fs file_path s) = None).
    { intros s. unfold add_file_inode_to_map. rewrite Hst. split; reflexivity. }
    split; [exact H|].
    intros before rest s0. apply run_workers_drop. intros s. apply H.
  - intros Hr Hst.
    assert (H : forall s,
               after (check_if_file_is_hardlink fs skip_symlinks
                        originals_directory_path file_path s) = s
               /\ raised (check_if_file_is_hardlink fs skip_symlinks
                            originals_directory_path file_path s) = None).
    { intros s.
      destruct (check_if_file_is_hardlink_reaches fs skip_symlinks
                  originals_directory_path file_path target s Hr) as [-> ->].
      apply check_inode_vanished. exact Hst. }
    split; [exact H|].
    intros before rest s0. apply run_workers_drop. intros s. apply H.
Qed.

Lemma C6_witness :
  ((forall s,
      after (add_file_inode_to_map Example1.fs (abs ["root"; "gone"]%string) s) = s
      /\ raised (add_file_inode_to_map Example1.fs (abs ["root"; "gone"]%string) s)
         = None)
   /\ forall before rest s0,
        snd (run_workers (add_file_inode_to_map Example1.fs)
               (before ++ abs ["root"; "gone"]%string :: rest) s0)
        = snd (run_workers (add_file_inode_to_map Example1.fs)
                 (before ++ rest) s0))
  /\ ((forall s,
         after (check_if_file_is_hardlink Example1.fs true Example1.originals
                  (abs ["root"; "gone"]%string) s) = s
         /\ raised (check_if_file_is_hardlink Example1.fs true
                      Example1.originals (abs ["root"; "gone"]%string) s) = None)
      /\ forall before rest s0,
           snd (run_workers
                  (check_if_file_is_hardlink Example1.fs true Example1.originals)
                  (before ++ abs ["root"; "gone"]%string :: rest) s0)
           = snd (run_workers
                    (check_if_file_is_hardlink Example1.fs true Example1.originals)
                    (before ++ rest) s0)).
Proof.
  split.
  - apply (proj1 (C6_vanished_file_passed_over Example1.fs true
                    Example1.originals (abs ["root"; "gone"]%string)
                    (abs ["root"; "gone"]%string))).
    reflexivity.
  - apply (proj2 (C6_vanished_file_passed_over Example1.fs true
                    Example1.originals (abs ["root"; "gone"]%string)
                    (abs ["root"; "gone"]%string))).
    + left. split; reflexivity.
    + reflexivity.
Defined.

(** ** Where the paths of a group come from *)

Lemma discovered_cases (fs : FileSystem) (skip : bool) (o : Path)
    (calls : list Path) (inode : Z) (q : Path) :
  discovered fs skip o calls inode q ->
  (In q calls /\ is_symlink fs q = false)
  \/ (skip = false
      /\ exists c, In c calls /\ is_symlink fs c = true /\ resolve fs c = FsOk q).
Proof.
  intros [c [Hc [[[Hsym ->] | [Hsym [Hskip Hres]]] _]]].
  - left. auto.
  - right. split; [exact Hskip|]. exists c. auto.
Qed.

Lemma root_calls_In (skip_directories : list Path)
    (entries : list (Path * list string)) (c : Path) :
  In c (root_calls skip_directories entries)
  <-> exists path files file,
        In (path, files) entries /\ skipped skip_directories path = false
        /\ In file files /\ c = joinpath path file.
Proof.
  unfold root_calls. rewrite in_flat_map. split.
  - intros [[path files] [He Hc]]. simpl in Hc.
    destruct (skipped skip_directories path) eqn:Esk; [destruct Hc|].
    apply in_map_iff in Hc. destruct Hc as [file [<- Hf]].
    exists path, files, file. auto.
  - intros [path [files [file [He [Esk [Hf ->]]]]]].
    exists (path, files). split; [exact He|]. simpl. rewrite Esk.
    apply in_map. exact Hf.
Qed.

Lemma root_calls_app (skip_directories : list Path)
    (es1 es2 : list (Path * list string)) :
  root_calls skip_directories (es1 ++ es2)
  = root_calls skip_directories es1 ++ root_calls skip_directories es2.
Proof. unfold root_calls. apply flat_map_app. Qed.

Lemma skipped_spec (skip_directories : list Path) (path : Path) :
  skipped skip_directories path = true
  <-> exists skip_dir,
        In skip_dir skip_directories
        /\ is_absolute path = is_absolute skip_dir
        /\ exists below, parts path = parts skip_dir ++ below.
Proof.
  unfold skipped. rewrite existsb_exists. split.
  - intros [d [Hd H]]. apply is_relative_to_spec in H. exists d. tauto.
  - intros [d [Hd H]]. exists d. split; [exact Hd|].
    apply is_relative_to_spec. exact H.
Qed.

Lemma printed_in_group (fs : FileSystem) (pool1 pool2 : Executor)
    (root_directory originals_directory : Path) (min_links : Z)
    (to_file : option Path) (append_to_file skip_symlinks include : bool)
    (skip_directories : list Path) (p : Path) :
  In p (printed (find_hardlinks fs pool1 pool2 root_directory
                   originals_directory min_links to_file append_to_file
                   skip_symlinks include skip_directories)) ->
  exists inode paths,
    In (inode, paths)
      (paths_per_inode
         (snd (scan fs pool1 pool2 root_directory originals_directory
                 skip_symlinks skip_directories)))
    /\ In p paths.
Proof.
  destruct (Z.ltb_spec min_links 1) as [Hlt|Hge].
  - rewrite find_hardlinks_invalid by exact Hlt. intros [].
  - destruct (find_hardlinks_run fs pool1 pool2 root_directory
                originals_directory to_file append_to_file skip_symlinks
                include skip_directories Hge)
      as [[f [e [_ [_ ->]]]] | [_ [Hpr _]]]; simpl.
    + intros [].
    + rewrite Hpr. intros Hp. apply in_concat in Hp.
      destruct Hp as [b [Hb Hp]]. apply in_map_iff in Hb.
      destruct Hb as [g [<- Hg]]. unfold dict_values in Hg.
      apply in_map_iff in Hg. destruct Hg as [[k g'] [E Hin]].
      simpl in E. subst g'. exists k, g. split; [exact Hin|].
      apply (block_incl include min_links g p Hp).
Qed.



(** C7 (as the code has it): with [skip_symlinks], the call for a symbolic
    link only asks whether it is one and returns; the classifier appends it
    to no group.  The link's path is in a group, or in the output, only when
    it is itself a file of the originals walk, recorded there by the indexer,
    which never looks at [skip_symlinks]. *)
Theorem C7_symlink_skipped (fs : FileSystem) (pool1 pool2 : Executor)
    (root_directory originals_directory : Path)
    (skip_directories : list Path) (file_path : Path) :
  is_symlink fs file_path = true ->
  (forall o s,
     check_if_file_is_hardlink fs true o file_path s
     = mkStep [ELstat file_path] s None)
  /\ Forall2
       (fun e0 e =>
          fst e = fst e0
          /\ exists appended,
               snd e = snd e0 ++ appended /\ ~ In file_path appended)
       (paths_per_inode (index_originals fs pool1 originals_directory))
       (paths_per_inode
          (snd (scan fs pool1 pool2 root_directory originals_directory
                  true skip_directories)))
  /\ (forall inode paths,
        In (inode, paths)
          (paths_per_inode
             (snd (scan fs pool1 pool2 root_directory originals_directory
                     true skip_directories))) ->
        In file_path paths ->
        indexed fs (originals_calls (walk fs (absolute fs originals_directory)))
          inode file_path)
  /\ (forall min_links to_file append_to_file include,
        In file_path
          (printed (find_hardlinks fs pool1 pool2 root_directory
                      originals_directory min_links to_file append_to_file
                      true include skip_directories)) ->
        In file_path
          (originals_calls (walk fs (absolute fs originals_directory)))).
Proof.
  intros Hsym.
  assert (Happ : forall k app,
            Forall (discovered fs true (absolute fs originals_directory)
                      (root_calls skip_directories
                         (walk fs (absolute fs root_directory))) k) app ->
            ~ In file_path app).
  { intros k app Hd Hmem. rewrite Forall_forall in Hd.
    destruct (discovered_cases _ _ _ _ _ _ (Hd _ Hmem))
      as [[_ Hno] | [Hskip _]]; congruence. }
  assert (Hgroups : forall inode paths,
            In (inode, paths)
              (paths_per_inode
                 (snd (scan fs pool1 pool2 root_directory originals_directory
                         true skip_directories))) ->
            In file_path paths ->
            indexed fs
              (originals_calls (walk fs (absolute fs originals_directory)))
              inode file_path).
  { intros inode paths Hin Hmem.
    destruct (scan_groups fs pool1 pool2 root_directory originals_directory
                true skip_directories inode paths Hin)
      as [g0 [app [-> [_ [[_ Hidx] Hd]]]]].
    apply in_app_or in Hmem. destruct Hmem as [Hmem|Hmem].
    - rewrite Forall_forall in Hidx. apply Hidx. exact Hmem.
    - exfalso. exact (Happ _ _ Hd Hmem). }
  split; [intros o s; apply check_if_file_is_hardlink_skips; exact Hsym|].
  split.
  { eapply Forall2_impl; [|apply scan_extends].
    intros e0 e [Hk [app [Hg Hd]]]. split; [exact Hk|].
    exists app. split; [exact Hg | exact (Happ _ _ Hd)]. }
  split; [exact Hgroups|].
  intros min_links to_file append_to_file include Hp.
  destruct (printed_in_group _ _ _ _ _ _ _ _ _ _ _ _ Hp) as [k [g [Hin Hmem]]].
  exact (proj1 (Hgroups k g Hin Hmem)).
Qed.

(** C7, as stated, fails: here L is a file of the root walk and a symbolic
    link, links are skipped, and yet L is in the group of inode 100 and is
    printed - it lies in the originals directory, which the indexer walks. *)
Lemma C7_counterexample :
  In Example7.L
    (root_calls [] (walk Example7.fs (absolute Example7.fs Example7.root)))
  /\ is_symlink Example7.fs Example7.L = true
  /\ paths_per_inode
       (final (find_hardlinks Example7.fs fifo fifo Example7.root
                 Example7.originals 1 None true true false []))
     = [(100, [Example7.A; Example7.L; Example7.A2])]
  /\ printed (find_hardlinks Example7.fs fifo fifo Example7.root
                Example7.originals 1 None true true false [])
     = [Example7.L; Example7.A2]
  /\ In Example7.L
       (printed (find_hardlinks Example7.fs fifo fifo Example7.root
                   Example7.originals 1 None true true false [])).
Proof.
  repeat split; try (vm_compute; reflexivity).
  - vm_compute. tauto.
  - vm_compute. tauto.
Qed.

Lemma C7_witness :
  (forall o s,
     check_if_file_is_hardlink Example7.fs true o Example7.L s
     = mkStep [ELstat Example7.L] s None)
  /\ Forall2
       (fun e0 e =>
          fst e = fst e0
          /\ exists appended,
               snd e = snd e0 ++ appended /\ ~ In Example7.L appended)
       (paths_per_inode (index_originals Example7.fs fifo Example7.originals))
       (paths_per_inode
          (snd (scan Example7.fs fifo fifo Example7.root Example7.originals
                  true [])))
  /\ (forall inode paths,
        In (inode, paths)
          (paths_per_inode
             (snd (scan Example7.fs fifo fifo Example7.root Example7.originals
                     true []))) ->
        In Example7.L paths ->
        indexed Example7.fs
          (originals_calls
             (walk Example7.fs (absolute Example7.fs Example7.originals)))
          inode Example7.L)
  /\ (forall min_links to_file append_to_file include,
        In Example7.L
          (printed (find_hardlinks Example7.fs fifo fifo Example7.root
                      Example7.originals min_links to_file append_to_file
                      true include [])) ->
        In Example7.L
          (originals_calls
             (walk Example7.fs (absolute Example7.fs Example7.originals)))).
Proof.
  apply (C7_symlink_skipped Example7.fs fifo fifo Example7.root
           Example7.originals [] Example7.L).
  reflexivity.
Defined.




(** C8 (as the code has it): a directory of the root walk that lies under
    a skip-directory, component by component, is skipped; none of its files is
    submitted to the classifier, and the scan is the one of a walk without
    that directory.  The path of such a file is in a group only when it is
    also a file of the originals walk, recorded by the indexer, or when links
    are followed and it is the resolved target of a symbolic link that was
    submitted from a directory that is not skipped. *)
Theorem C8_skipped_directories (fs : FileSystem) (pool1 pool2 : Executor)
    (root_directory originals_directory : Path) (skip_symlinks : bool)
    (skip_directories : list Path) (skip_dir path : Path)
    (below : list string) (file : string) :
  In skip_dir skip_directories ->
  is_absolute path = is_absolute skip_dir ->
  parts path = parts skip_dir ++ below ->
  skipped skip_directories path = true
  /\ (forall before files rest,
        root_calls skip_directories (before ++ (path, files) :: rest)
        = root_calls skip_directories (before ++ rest))
  /\ ~ In (joinpath path file)
         (root_calls skip_directories (walk fs (absolute fs root_directory)))
  /\ (forall inode paths,
        In (inode, paths)
          (paths_per_inode
             (snd (scan fs pool1 pool2 root_directory originals_directory
                     skip_symlinks skip_directories))) ->
        In (joinpath path file) paths ->
        indexed fs (originals_calls (walk fs (absolute fs originals_directory)))
          inode (joinpath path file)
        \/ (skip_symlinks = false
            /\ exists c,
                 In c (root_calls skip_directories
                         (walk fs (absolute fs root_directory)))
                 /\ is_symlink fs c = true
                 /\ resolve fs c = FsOk (joinpath path file)))
  /\ (forall d,
        skipped skip_directories d = true
        <-> exists sd,
              In sd skip_directories
              /\ is_absolute d = is_absolute sd
              /\ exists more, parts d = parts sd ++ more).
Proof.
  intros Hsd Habs Hparts.
  assert (Hsk : skipped skip_directories path = true).
  { apply skipped_spec. exists skip_dir. split; [exact Hsd|].
    split; [exact Habs | exists below; exact Hparts]. }
  assert (Hnot : ~ In (joinpath path file)
                     (root_calls skip_directories
                        (walk fs (absolute fs root_directory)))).
  { intros Hc. apply root_calls_In in Hc.
    destruct Hc as [path' [files [file' [_ [Hns [_ E]]]]]].
    apply joinpath_inj in E. destruct E as [<- _]. congruence. }
  split; [exact Hsk|]. split.
  { intros before files rest. rewrite !root_calls_app.
    change ((path, files) :: rest) with ([(path, files)] ++ rest).
    rewrite root_calls_app. unfold root_calls at 2. simpl.
    rewrite Hsk. reflexivity. }
  split; [exact Hnot|]. split; [|intros d; apply skipped_spec].
  intros inode paths Hin Hmem.
  destruct (scan_groups fs pool1 pool2 root_directory originals_directory
              skip_symlinks skip_directories inode paths Hin)
    as [g0 [app [-> [_ [[_ Hidx] Hd]]]]].
  apply in_app_or in Hmem. destruct Hmem as [Hmem|Hmem].
  - left. rewrite Forall_forall in Hidx. apply Hidx. exact Hmem.
  - right. rewrite Forall_forall in Hd.
    destruct (discovered_cases _ _ _ _ _ _ (Hd _ Hmem)) as [[Hc _] | H].
    + contradiction.
    + exact H.
Qed.

(** C8, as stated, fails: the directory [skip] of the root walk is skipped,
    and still its file X is in the group of inode 100 and is printed: links
    are followed, and a link outside the skipped directory resolves to X. *)
Lemma C8_counterexample :
  In (Example8.skip, ["X"%string])
    (walk Example8.fs (absolute Example8.fs Example8.root))
  /\ skipped [Example8.skip] Example8.skip = true
  /\ joinpath Example8.skip "X" = Example8.X
  /\ paths_per_inode
       (final (find_hardlinks Example8.fs fifo fifo Example8.root
                 Example8.originals 1 None true false false [Example8.skip]))
     = [(100, [Example8.A; Example8.X])]
  /\ printed (find_hardlinks Example8.fs fifo fifo Example8.root
                Example8.originals 1 None true false false [Example8.skip])
     = [Example8.X].
Proof.
  repeat split; try (vm_compute; reflexivity).
  vm_compute. tauto.
Qed.

Lemma C8_witness :
  skipped [Example8.skip] Example8.skip = true
  /\ (forall before files rest,
        root_calls [Example8.skip] (before ++ (Example8.skip, files) :: rest)
        = root_calls [Example8.skip] (before ++ rest))
  /\ ~ In (joinpath Example8.skip "X")
         (root_calls [Example8.skip]
            (walk Example8.fs (absolute Example8.fs Example8.root)))
  /\ (forall inode paths,
        In (inode, paths)
          (paths_per_inode
             (snd (scan Example8.fs fifo fifo Example8.root Example8.originals
                     false [Example8.skip]))) ->
        In (joinpath Example8.skip "X") paths ->
        indexed Example8.fs
          (originals_calls
             (walk Example8.fs (absolute Example8.fs Example8.originals)))
          inode (joinpath Example8.skip "X")
        \/ (false = false
            /\ exists c,
                 In c (root_calls [Example8.skip]
                         (walk Example8.fs (absolute Example8.fs Example8.root)))
                 /\ is_symlink Example8.fs c = true
                 /\ resolve Example8.fs c = FsOk (joinpath Example8.skip "X")))
  /\ (forall d,
        skipped [Example8.skip] d = true
        <-> exists sd,
              In sd [Example8.skip]
              /\ is_absolute d = is_absolute sd
              /\ exists more, parts d = parts sd ++ more).
Proof.
  apply (C8_skipped_directories Example8.fs fifo fifo Example8.root
           Example8.originals false [Example8.skip] Example8.skip Example8.skip
           [] "X"%string).
  - left. reflexivity.
  - reflexivity.
  - reflexivity.
Defined.

(** ** All the schedules of a few calls *)

Lemma inserts_In (A : Type) (a : A) (l1 l2 : list A) :
  In (l1 ++ a :: l2) (inserts a (l1 ++ l2)).
Proof.
  induction l1 as [|x l1 IH]; simpl.
  - destruct l2; left; reflexivity.
  - right. apply in_map. exact IH.
Qed.

Lemma orders_complete (A : Type) (l' l : list A) :
  Permutation l l' -> In l (orders l').
Proof.
  revert l; induction l' as [|a l' IH]; intros l H.
  - apply Permutation_sym, Permutation_nil in H. subst. left. reflexivity.
  - destruct (Permutation_vs_cons_inv H) as [l1 [l2 ->]].
    apply Permutation_sym, Permutation_cons_app_inv, Permutation_sym in H.
    simpl. apply in_flat_map. exists (l1 ++ l2). split; [apply IH; exact H|].
    apply inserts_In.
Qed.

(** ** The end-to-end example *)

Lemma Example1_output (pool1 pool2 : Executor) (to_file : option Path)
    (append_to_file skip_symlinks : bool) (min_links : Z) (include : bool) :
  1 <= min_links ->
  Example1.output pool1 pool2 to_file append_to_file skip_symlinks
    min_links include
  = List.concat
      (map (block include min_links)
         (dict_values
            (paths_per_inode
               (snd (scan Example1.fs pool1 pool2 Example1.root
                       Example1.originals skip_symlinks []))))).
Proof.
  intros Hmin. unfold Example1.output.
  destruct (find_hardlinks_run Example1.fs pool1 pool2 Example1.root
              Example1.originals to_file append_to_file skip_symlinks
              include [] Hmin)
    as [[f [e [_ [Hopen _]]]] | [_ [Hpr _]]].
  - cbv in Hopen. discriminate Hopen.
  - exact Hpr.
Qed.

(* Whatever the two pools do, the scan ends with the group of inode 100
   holding A and then A2 and A3 in either order, and the group of B. *)
Lemma Example1_scan (pool1 pool2 : Executor) (skip_symlinks : bool) :
  let groups :=
    paths_per_inode
      (snd (scan Example1.fs pool1 pool2 Example1.root Example1.originals
              skip_symlinks [])) in
  groups = [(100, [Example1.A; Example1.A2; Example1.A3]); (200, [Example1.B])]
  \/ groups = [(100, [Example1.A; Example1.A3; Example1.A2]); (200, [Example1.B])]
  \/ groups = [(200, [Example1.B]); (100, [Example1.A; Example1.A2; Example1.A3])]
  \/ groups = [(200, [Example1.B]); (100, [Example1.A; Example1.A3; Example1.A2])].
Proof.
  intros groups. subst groups. rewrite scan_store.
  unfold index_originals, run_pool.
  change (originals_calls
            (walk Example1.fs (absolute Example1.fs Example1.originals)))
    with [Example1.A; Example1.B].
  change (root_calls [] (walk Example1.fs (absolute Example1.fs Example1.root)))
    with [Example1.A2; Example1.A3; Example1.C].
  pose proof (orders_complete _ _ _
                (order_perm pool1 [Example1.A; Example1.B])) as H1.
  pose proof (orders_complete _ _ _
                (order_perm pool2 [Example1.A2; Example1.A3; Example1.C])) as H2.
  simpl in H1, H2.
  destruct H1 as [H1|[H1|[]]]; rewrite <- H1;
    destruct H2 as [H2|[H2|[H2|[H2|[H2|[H2|[]]]]]]]; rewrite <- H2;
    vm_compute;
    first [ left; reflexivity
          | right; left; reflexivity
          | right; right; left; reflexivity
          | right; right; right; reflexivity ].
Qed.

(** C1 (as the code has it): on the example trees, for every schedule of
    the two pools and every sink, [min_links = 1] prints exactly A2 and A3, in
    some order, and nothing for B or C; [min_links = 2] prints the same two
    lines, since the group of A has two entries beyond A; [min_links = 3]
    prints nothing; [min_links = 1] with [include_originals_in_output] prints
    A and then A2 and A3. *)
Theorem C1_end_to_end (pool1 pool2 : Executor) (to_file : option Path)
    (append_to_file skip_symlinks : bool) :
  Permutation
    (Example1.output pool1 pool2 to_file append_to_file skip_symlinks 1 false)
    [Example1.A2; Example1.A3]
  /\ Permutation
       (Example1.output pool1 pool2 to_file append_to_file skip_symlinks 2 false)
       [Example1.A2; Example1.A3]
  /\ Example1.output pool1 pool2 to_file append_to_file skip_symlinks 3 false
     = []
  /\ exists rest,
       Example1.output pool1 pool2 to_file append_to_file skip_symlinks 1 true
       = Example1.A :: rest
       /\ Permutation rest [Example1.A2; Example1.A3].
Proof.
  rewrite !Example1_output by lia.
  destruct (Example1_scan pool1 pool2 skip_symlinks) as [E|[E|[E|E]]];
    rewrite E; vm_compute;
    (split; [first [apply Permutation_refl | apply perm_swap]|]);
    (split; [first [apply Permutation_refl | apply perm_swap]|]);
    (split; [reflexivity|]);
    eexists; (split; [reflexivity|]);
    first [apply Permutation_refl | apply perm_swap].
Qed.

(** C1, as stated, fails: with [min_links = 2] the output is not empty,
    it is A2 and A3. *)
Lemma C1_counterexample :
  Example1.output fifo fifo None true true 2 false
  = [Example1.A2; Example1.A3]
  /\ Example1.output fifo fifo None true true 2 false <> [].
Proof.
  split; [vm_compute; reflexivity | vm_compute; discriminate].
Qed.

(** ** Two runs of the example, written out *)

Example Example1_last_in_first_out :
  Example1.output fifo lifo None true true 1 false
  = [Example1.A3; Example1.A2].
Proof. vm_compute. reflexivity. Qed.

Example Example1_with_originals :
  Example1.output lifo fifo (Some (abs ["report"%string])) false true 1 true
  = [Example1.A; Example1.A2; Example1.A3].
Proof. vm_compute. reflexivity. Qed.

(** * Further properties of the scanner *)

(** ** Looking up after an append *)

Lemma dict_get_defaultdict_append (A : Type) (k k' : Z) (x : A)
    (d : dict Z (list A)) :
  dict_get Z.eqb k (defaultdict_append Z.eqb k' x d)
  = if Z.eqb k k'
    then Some (match dict_get Z.eqb k d with Some l => l | None => [] end ++ [x])
    else dict_get Z.eqb k d.
Proof.
  induction d as [|[k0 l] d IH]; simpl.
  - destruct (Z.eqb_spec k k') as [->|N]; [reflexivity|]. reflexivity.
  - destruct (Z.eqb_spec k' k0) as [->|N0]; simpl.
    + destruct (Z.eqb_spec k k0) as [->|N]; reflexivity.
    + destruct (Z.eqb_spec k k0) as [->|N].
      * destruct (Z.eqb_spec k0 k') as [E|_]; [congruence | reflexivity].
      * exact IH.
Qed.

Lemma dict_get_In (V : Type) (k : Z) (v : V) (d : dict Z V) :
  dict_get Z.eqb k d = Some v -> In (k, v) d.
Proof.
  induction d as [|[k0 v0] d IH]; simpl; [discriminate|].
  destruct (Z.eqb_spec k k0) as [->|_].
  - intros E. inversion E. left. reflexivity.
  - intros E. right. apply IH. exact E.
Qed.

Lemma In_dict_get (V : Type) (k : Z) (v : V) (d : dict Z V) :
  NoDup (dict_keys d) -> In (k, v) d -> dict_get Z.eqb k d = Some v.
Proof.
  induction d as [|[k0 v0] d IH]; simpl; [intros _ []|].
  intros Hnd. inversion Hnd as [|? ? Hnot Hnd']; subst.
  intros [E|Hin].
  - inversion E; subst. rewrite Z.eqb_refl. reflexivity.
  - destruct (Z.eqb_spec k k0) as [->|_].
    + exfalso. apply Hnot. unfold dict_keys.
      change k0 with (fst (k0, v)). apply in_map. exact Hin.
    + apply IH; assumption.
Qed.

Lemma dict_get_None_keys (V : Type) (k : Z) (d : dict Z V) :
  dict_get Z.eqb k d = None <-> ~ In k (dict_keys d).
Proof.
  split.
  - intros E Hin. apply In_dict_contains in Hin. unfold dict_contains in Hin.
    rewrite E in Hin. discriminate.
  - intros Hnot. destruct (dict_get Z.eqb k d) eqn:E; [|reflexivity].
    exfalso. apply Hnot. apply dict_contains_In. unfold dict_contains.
    rewrite E. reflexivity.
Qed.

Lemma defaultdict_append_keys_new (A : Type) (k : Z) (x : A)
    (d : dict Z (list A)) :
  dict_contains Z.eqb k d = false ->
  dict_keys (defaultdict_append Z.eqb k x d) = dict_keys d ++ [k].
Proof.
  unfold dict_contains. induction d as [|[k' l] d IH]; simpl.
  - reflexivity.
  - destruct (Z.eqb_spec k k') as [->|_]; simpl; [discriminate|].
    intros H. rewrite IH; auto.
Qed.

Lemma defaultdict_append_NoDup (A : Type) (k : Z) (x : A)
    (d : dict Z (list A)) :
  NoDup (dict_keys d) -> NoDup (dict_keys (defaultdict_append Z.eqb k x d)).
Proof.
  intros Hnd. destruct (dict_contains Z.eqb k d) eqn:E.
  - rewrite defaultdict_append_keys by exact E. exact Hnd.
  - rewrite defaultdict_append_keys_new by exact E.
    apply NoDup_app; [exact Hnd | repeat constructor; intros [] |].
    intros a Ha [<-|[]]. apply In_dict_contains in Ha. congruence.
Qed.

(** ** What the two workers do to PathsPerInode, as functions *)

Lemma add_file_inode_to_map_paths (fs : FileSystem) (p : Path) (s : Store) :
  paths_per_inode (after (add_file_inode_to_map fs p s))
  = match stat fs p with
    | FsOk i => defaultdict_append Z.eqb i p (paths_per_inode s)
    | FsErr _ => paths_per_inode s
    end.
Proof.
  unfold add_file_inode_to_map.
  destruct (stat fs p) as [i|e]; [reflexivity | destruct e; reflexivity].
Qed.

Lemma check_if_file_is_hardlink_paths (fs : FileSystem) (skip : bool)
    (o p : Path) (s : Store) :
  paths_per_inode (after (check_if_file_is_hardlink fs skip o p s))
  = match classified fs skip o p with
    | Some (i, target) =>
        if dict_contains Z.eqb i (paths_per_inode s)
        then defaultdict_append Z.eqb i target (paths_per_inode s)
        else paths_per_inode s
    | None => paths_per_inode s
    end.
Proof.
  assert (H : forall t,
            paths_per_inode (after (check_inode fs o t s))
            = if is_relative_to t o then paths_per_inode s
              else match stat fs t with
                   | FsOk i =>
                       if dict_contains Z.eqb i (paths_per_inode s)
                       then defaultdict_append Z.eqb i t (paths_per_inode s)
                       else paths_per_inode s
                   | FsErr _ => paths_per_inode s
                   end).
  { intros t. unfold check_inode. destruct (is_relative_to t o); [reflexivity|].
    destruct (stat fs t) as [i|e]; [|destruct e; reflexivity].
    simpl. destruct (dict_contains Z.eqb i (paths_per_inode s)); reflexivity. }
  unfold check_if_file_is_hardlink, classified.
  destruct (is_symlink fs p).
  - destruct skip; [reflexivity|].
    destruct (resolve fs p) as [t|e]; [|destruct e; reflexivity].
    simpl after. rewrite H. destruct (is_relative_to t o); [reflexivity|].
    destruct (stat fs t); reflexivity.
  - simpl after. rewrite H. destruct (is_relative_to p o); [reflexivity|].
    destruct (stat fs p); reflexivity.
Qed.


Section GroupContent.
Variable fs : FileSystem.

Lemma index_run_get (k : Z) (l : list Path) (s : Store) :
  dict_get Z.eqb k
    (paths_per_inode (snd (run_workers (add_file_inode_to_map fs) l s)))
  = match index_hits fs k l with
    | [] => dict_get Z.eqb k (paths_per_inode s)
    | h => Some (match dict_get Z.eqb k (paths_per_inode s) with
                 | Some g => g
                 | None => []
                 end ++ h)
    end.
Proof.
  revert s; induction l as [|p l IH]; intros s; [reflexivity|].
  rewrite run_workers_cons, IH, add_file_inode_to_map_paths.
  unfold index_hits. simpl filter. unfold has_inode at 2.
  destruct (stat fs p) as [i|e].
  - rewrite dict_get_defaultdict_append, (Z.eqb_sym k i).
    destruct (Z.eqb i k).
    + destruct (filter (has_inode fs k) l); [reflexivity|].
      rewrite <- app_assoc. reflexivity.
    + reflexivity.
  - reflexivity.
Qed.

Variable skip_symlinks : bool.
Variable o : Path.

Lemma classify_run_get (k : Z) (l : list Path) (s : Store) :
  dict_get Z.eqb k
    (paths_per_inode
       (snd (run_workers (check_if_file_is_hardlink fs skip_symlinks o) l s)))
  = match dict_get Z.eqb k (paths_per_inode s) with
    | None => None
    | Some g => Some (g ++ class_hits fs skip_symlinks o k l)
    end.
Proof.
  revert s; induction l as [|p l IH]; intros s.
  - simpl. destruct (dict_get Z.eqb k (paths_per_inode s));
      [rewrite app_nil_r|]; reflexivity.
  - rewrite run_workers_cons, IH, check_if_file_is_hardlink_paths.
    unfold class_hits. simpl flat_map.
    destruct (classified fs skip_symlinks o p) as [[i t]|]; [|reflexivity].
    destruct (dict_contains Z.eqb i (paths_per_inode s)) eqn:Ein.
    + rewrite dict_get_defaultdict_append, (Z.eqb_sym k i).
      destruct (Z.eqb_spec i k) as [->|N].
      * unfold dict_contains in Ein.
        destruct (dict_get Z.eqb k (paths_per_inode s)); [|discriminate].
        rewrite <- app_assoc. reflexivity.
      * reflexivity.
    + destruct (Z.eqb_spec i k) as [->|N]; [|reflexivity].
      unfold dict_contains in Ein.
      destruct (dict_get Z.eqb k (paths_per_inode s)); [discriminate|].
      reflexivity.
Qed.
End GroupContent.

Lemma scan_get (fs : FileSystem) (pool1 pool2 : Executor)
    (root_directory originals_directory : Path) (skip_symlinks : bool)
    (skip_directories : list Path) (k : Z) :
  dict_get Z.eqb k
    (paths_per_inode
       (snd (scan fs pool1 pool2 root_directory originals_directory
               skip_symlinks skip_directories)))
  = match index_hits fs k
            (order pool1
               (originals_calls (walk fs (absolute fs originals_directory))))
    with
    | [] => None
    | h =>
        Some (h ++ class_hits fs skip_symlinks
                     (absolute fs originals_directory) k
                     (order pool2
                        (root_calls skip_directories
                           (walk fs (absolute fs root_directory)))))
    end.
Proof.
  rewrite scan_store, classify_run_get.
  unfold index_originals, run_pool. rewrite index_run_get. simpl.
  destruct (index_hits fs k _); reflexivity.
Qed.

Lemma Permutation_filter_same (A : Type) (f : A -> bool) (l l' : list A) :
  Permutation l l' -> Permutation (filter f l) (filter f l').
Proof.
  induction 1 as [|x l l' _ IH|x y l|l l' l'' _ IH1 _ IH2]; simpl.
  - constructor.
  - destruct (f x); [constructor|]; exact IH.
  - destruct (f x), (f y); try apply Permutation_refl. apply perm_swap.
  - exact (Permutation_trans IH1 IH2).
Qed.

Lemma Permutation_flat_map_same (A B : Type) (f : A -> list B) (l l' : list A) :
  Permutation l l' -> Permutation (flat_map f l) (flat_map f l').
Proof.
  induction 1 as [|x l l' _ IH|x y l|l l' l'' _ IH1 _ IH2]; simpl.
  - constructor.
  - apply Permutation_app_head. exact IH.
  - rewrite !app_assoc. apply Permutation_app_tail. apply Permutation_app_comm.
  - exact (Permutation_trans IH1 IH2).
Qed.

(** ** The content of the groups *)

(** X1: for every inode, the group PathsPerInode holds for it when the
    emitter runs is known exactly, whatever the two pools did: there is no
    group when no file of the originals walk has that inode; otherwise the
    group is the originals files with that inode, each once per submitted
    call and in the order the first pool ran them, followed by what the
    classifier's calls settle on for that inode, in the order the second
    pool ran them.  No append is lost and none is made twice. *)
Theorem X1_group_content (fs : FileSystem) (pool1 pool2 : Executor)
    (root_directory originals_directory : Path) (skip_symlinks : bool)
    (skip_directories : list Path) (inode : Z) :
  exists originals appended,
    Permutation originals
      (index_hits fs inode
         (originals_calls (walk fs (absolute fs originals_directory))))
    /\ Permutation appended
         (class_hits fs skip_symlinks (absolute fs originals_directory) inode
            (root_calls skip_directories
               (walk fs (absolute fs root_directory))))
    /\ dict_get Z.eqb inode
         (paths_per_inode
            (snd (scan fs pool1 pool2 root_directory originals_directory
                    skip_symlinks skip_directories)))
       = match originals with
         | [] => None
         | _ :: _ => Some (originals ++ appended)
         end.
Proof.
  exists (index_hits fs inode
            (order pool1
               (originals_calls (walk fs (absolute fs originals_directory))))),
    (class_hits fs skip_symlinks (absolute fs originals_directory) inode
       (order pool2
          (root_calls skip_directories (walk fs (absolute fs root_directory))))).
  split; [|split].
  - apply Permutation_filter_same. apply order_perm.
  - apply Permutation_flat_map_same. apply order_perm.
  - rewrite scan_get. destruct (index_hits fs inode _); reflexivity.
Qed.

Lemma index_hits_In (fs : FileSystem) (k : Z) (l : list Path) (p : Path) :
  In p (index_hits fs k l) <-> In p l /\ stat fs p = FsOk k.
Proof.
  unfold index_hits, has_inode. rewrite filter_In. split.
  - intros [Hp H]. split; [exact Hp|].
    destruct (stat fs p) as [i|e]; [|discriminate].
    apply Z.eqb_eq in H. subst. reflexivity.
  - intros [Hp H]. split; [exact Hp|]. rewrite H. apply Z.eqb_refl.
Qed.

Lemma class_hits_In (fs : FileSystem) (skip : bool) (o : Path) (k : Z)
    (l : list Path) (t : Path) :
  In t (class_hits fs skip o k l)
  <-> exists c, In c l /\ classified fs skip o c = Some (k, t).
Proof.
  unfold class_hits. rewrite in_flat_map. split.
  - intros [c [Hc H]]. exists c. split; [exact Hc|].
    destruct (classified fs skip o c) as [[i t']|]; [|destruct H].
    destruct (Z.eqb_spec i k) as [->|_]; [|destruct H].
    destruct H as [<-|[]]. reflexivity.
  - intros [c [Hc H]]. exists c. split; [exact Hc|].
    rewrite H, Z.eqb_refl. left. reflexivity.
Qed.

(* The group of an inode some original has: it is there, and it holds
   exactly the hits of the two phases. *)
Lemma scan_group_members (fs : FileSystem) (pool1 pool2 : Executor)
    (root_directory originals_directory : Path) (skip_symlinks : bool)
    (skip_directories : list Path) (k : Z) (p0 : Path) :
  In p0 (originals_calls (walk fs (absolute fs originals_directory))) ->
  stat fs p0 = FsOk k ->
  exists g,
    dict_get Z.eqb k
      (paths_per_inode
         (snd (scan fs pool1 pool2 root_directory originals_directory
                 skip_symlinks skip_directories))) = Some g
    /\ forall q,
         In q g
         <-> (In q (originals_calls (walk fs (absolute fs originals_directory)))
              /\ stat fs q = FsOk k)
             \/ exists c,
                  In c (root_calls skip_directories
                          (walk fs (absolute fs root_directory)))
                  /\ classified fs skip_symlinks
                       (absolute fs originals_directory) c = Some (k, q).
Proof.
  intros Hp Hst. rewrite scan_get.
  assert (Hhit : In p0 (index_hits fs k
                          (order pool1
                             (originals_calls
                                (walk fs (absolute fs originals_directory)))))).
  { apply index_hits_In. split; [|exact Hst].
    apply (Permutation_in p0 (Permutation_sym (order_perm pool1 _)) Hp). }
  destruct (index_hits fs k (order pool1 _)) as [|h hs] eqn:E; [destruct Hhit|].
  eexists. split; [reflexivity|].
  intros q. rewrite in_app_iff, <- E, index_hits_In, class_hits_In. split.
  - intros [[Hq Hs] | [c [Hc Hcl]]].
    + left. split; [|exact Hs].
      apply (Permutation_in q (order_perm pool1 _) Hq).
    + right. exists c. split; [|exact Hcl].
      apply (Permutation_in c (order_perm pool2 _) Hc).
  - intros [[Hq Hs] | [c [Hc Hcl]]].
    + left. split; [|exact Hs].
      apply (Permutation_in q (Permutation_sym (order_perm pool1 _)) Hq).
    + right. exists c. split; [|exact Hcl].
      apply (Permutation_in c (Permutation_sym (order_perm pool2 _)) Hc).
Qed.

(** X2: the indexer puts all the files of the originals walk that share an
    inode into one group, the group of that inode, and they are still there
    when the emitter runs. *)
Theorem X2_same_inode_same_group (fs : FileSystem) (pool1 pool2 : Executor)
    (root_directory originals_directory : Path) (skip_symlinks : bool)
    (skip_directories : list Path) (inode : Z) (p p' : Path) :
  In p (originals_calls (walk fs (absolute fs originals_directory))) ->
  In p' (originals_calls (walk fs (absolute fs originals_directory))) ->
  stat fs p = FsOk inode ->
  stat fs p' = FsOk inode ->
  exists g,
    dict_get Z.eqb inode
      (paths_per_inode
         (snd (scan fs pool1 pool2 root_directory originals_directory
                 skip_symlinks skip_directories))) = Some g
    /\ In p g /\ In p' g.
Proof.
  intros Hp Hp' Hst Hst'.
  destruct (scan_group_members fs pool1 pool2 root_directory
              originals_directory skip_symlinks skip_directories inode p Hp Hst)
    as [g [Hg Hmem]].
  exists g. split; [exact Hg|].
  split; apply Hmem; left; split; assumption.
Qed.

Lemma X2_witness :
  exists g,
    dict_get Z.eqb 100
      (paths_per_inode
         (snd (scan Example3.fs fifo lifo Example3.root Example3.originals
                 false []))) = Some g
    /\ In Example3.A g /\ In Example3.A' g.
Proof.
  apply (X2_same_inode_same_group Example3.fs fifo lifo Example3.root
           Example3.originals false [] 100 Example3.A Example3.A').
  - vm_compute. tauto.
  - vm_compute. tauto.
  - reflexivity.
  - reflexivity.
Defined.



(** ** The keys *)

Lemma index_run_NoDup (fs : FileSystem) (l : list Path) (s : Store) :
  NoDup (dict_keys (paths_per_inode s)) ->
  NoDup (dict_keys
           (paths_per_inode (snd (run_workers (add_file_inode_to_map fs) l s)))).
Proof.
  revert s; induction l as [|p l IH]; intros s Hnd; [exact Hnd|].
  rewrite run_workers_cons. apply IH. rewrite add_file_inode_to_map_paths.
  destruct (stat fs p); [apply defaultdict_append_NoDup|]; exact Hnd.
Qed.

Lemma scan_keys_NoDup (fs : FileSystem) (pool1 pool2 : Executor)
    (root_directory originals_directory : Path) (skip_symlinks : bool)
    (skip_directories : list Path) :
  NoDup (dict_keys
           (paths_per_inode
              (snd (scan fs pool1 pool2 root_directory originals_directory
                      skip_symlinks skip_directories)))).
Proof.
  rewrite scan_keys. unfold index_originals, run_pool.
  apply index_run_NoDup. constructor.
Qed.

(** X4: when the emitter runs, the keys of PathsPerInode are exactly the
    inodes of the files of the originals walk whose stat succeeded, each key
    once: an inode has one group, hence one block in the output, and an
    entry of the dictionary is found by looking its key up. *)
Theorem X4_keys_are_original_inodes (fs : FileSystem) (pool1 pool2 : Executor)
    (root_directory originals_directory : Path) (skip_symlinks : bool)
    (skip_directories : list Path) :
  NoDup (dict_keys
           (paths_per_inode
              (snd (scan fs pool1 pool2 root_directory originals_directory
                      skip_symlinks skip_directories))))
  /\ (forall inode,
        In inode
          (dict_keys
             (paths_per_inode
                (snd (scan fs pool1 pool2 root_directory originals_directory
                        skip_symlinks skip_directories))))
        <-> exists p,
              In p (originals_calls (walk fs (absolute fs originals_directory)))
              /\ stat fs p = FsOk inode)
  /\ (forall inode paths,
        In (inode, paths)
          (paths_per_inode
             (snd (scan fs pool1 pool2 root_directory originals_directory
                     skip_symlinks skip_directories)))
        <-> dict_get Z.eqb inode
              (paths_per_inode
                 (snd (scan fs pool1 pool2 root_directory originals_directory
                         skip_symlinks skip_directories))) = Some paths).
Proof.
  split; [apply scan_keys_NoDup|]. split.
  - intros k. split.
    + intros Hin.
      destruct (dict_get Z.eqb k
                  (paths_per_inode
                     (snd (scan fs pool1 pool2 root_directory
                             originals_directory skip_symlinks
                             skip_directories)))) as [g|] eqn:E.
      * rewrite scan_get in E.
        destruct (index_hits fs k (order pool1 _)) as [|h hs] eqn:Eh;
          [discriminate|].
        assert (Hh : In h (index_hits fs k
                             (order pool1
                                (originals_calls
                                   (walk fs (absolute fs originals_directory))))))
          by (rewrite Eh; left; reflexivity).
        apply index_hits_In in Hh. destruct Hh as [Hh Hst].
        exists h. split; [|exact Hst].
        apply (Permutation_in h (order_perm pool1 _) Hh).
      * apply dict_get_None_keys in E. contradiction.
    + intros [p [Hp Hst]].
      destruct (scan_group_members fs pool1 pool2 root_directory
                  originals_directory skip_symlinks skip_directories k p Hp Hst)
        as [g [Hg _]].
      apply dict_contains_In. unfold dict_contains. rewrite Hg. reflexivity.
  - intros k g. split.
    + apply In_dict_get. apply scan_keys_NoDup.
    + apply dict_get_In.
Qed.

(** ** The path-to-inode map *)

Lemma dict_get_dict_set (V : Type) (p p' : Path) (v : V) (d : dict Path V) :
  dict_get Path_eqb p (dict_set Path_eqb p' v d)
  = if Path_eqb p p' then Some v else dict_get Path_eqb p d.
Proof.
  induction d as [|[p0 v0] d IH]; simpl.
  - reflexivity.
  - destruct (Path_eqb p' p0) eqn:E0; simpl.
    + apply Path_eqb_eq in E0. subst p0.
      destruct (Path_eqb p p'); reflexivity.
    + destruct (Path_eqb p p0) eqn:E.
      * apply Path_eqb_eq in E. subst p0.
        destruct (Path_eqb p p') eqn:E'; [|reflexivity].
        apply Path_eqb_eq in E'. subst p'.
        assert (Path_eqb p p = true) by (apply Path_eqb_eq; reflexivity).
        congruence.
      * exact IH.
Qed.

Lemma index_run_inode_map (fs : FileSystem) (p : Path) (l : list Path)
    (s : Store) :
  dict_get Path_eqb p
    (originals_inode_map (snd (run_workers (add_file_inode_to_map fs) l s)))
  = if existsb (Path_eqb p) l
    then match stat fs p with
         | FsOk i => Some i
         | FsErr _ => dict_get Path_eqb p (originals_inode_map s)
         end
    else dict_get Path_eqb p (originals_inode_map s).
Proof.
  revert s; induction l as [|p0 l IH]; intros s; [reflexivity|].
  rewrite run_workers_cons, IH. simpl existsb.
  assert (Hs : dict_get Path_eqb p
                 (originals_inode_map (after (add_file_inode_to_map fs p0 s)))
               = if Path_eqb p p0
                 then match stat fs p with
                      | FsOk i => Some i
                      | FsErr _ => dict_get Path_eqb p (originals_inode_map s)
                      end
                 else dict_get Path_eqb p (originals_inode_map s)).
  { unfold add_file_inode_to_map.
    destruct (Path_eqb p p0) eqn:E.
    - apply Path_eqb_eq in E. subst p0.
      destruct (stat fs p) as [i|e]; [|destruct e; reflexivity].
      simpl. rewrite dict_get_dict_set.
      assert (Path_eqb p p = true) as -> by (apply Path_eqb_eq; reflexivity).
      reflexivity.
    - destruct (stat fs p0) as [i|e]; [|destruct e; reflexivity].
      simpl. rewrite dict_get_dict_set, E. reflexivity. }
  rewrite Hs.
  destruct (Path_eqb p p0), (existsb (Path_eqb p) l), (stat fs p); reflexivity.
Qed.

Lemma classify_run_inode_map (fs : FileSystem) (skip : bool) (o : Path)
    (l : list Path) (s : Store) :
  originals_inode_map
    (snd (run_workers (check_if_file_is_hardlink fs skip o) l s))
  = originals_inode_map s.
Proof.
  revert s; induction l as [|p l IH]; intros s; [reflexivity|].
  rewrite run_workers_cons, IH. unfold check_if_file_is_hardlink.
  destruct (is_symlink fs p).
  - destruct skip; [reflexivity|].
    destruct (resolve fs p) as [t|e]; [|destruct e; reflexivity].
    simpl. apply check_inode_keeps_inode_map.
  - simpl. apply check_inode_keeps_inode_map.
Qed.

(** X5: when [find_hardlinks] is done with its two walks, looking a path
    up in the path-to-inode map gives an inode exactly when the path is a
    file of the originals walk whose stat succeeded, and then it gives that
    inode; the classifier never writes to this map. *)
Theorem X5_inode_map_lookup (fs : FileSystem) (pool1 pool2 : Executor)
    (root_directory originals_directory : Path) (skip_symlinks : bool)
    (skip_directories : list Path) (p : Path) (inode : Z) :
  (dict_get Path_eqb p
     (originals_inode_map
        (snd (scan fs pool1 pool2 root_directory originals_directory
                skip_symlinks skip_directories))) = Some inode
   <-> In p (originals_calls (walk fs (absolute fs originals_directory)))
       /\ stat fs p = FsOk inode)
  /\ originals_inode_map
       (snd (scan fs pool1 pool2 root_directory originals_directory
               skip_symlinks skip_directories))
     = originals_inode_map (index_originals fs pool1 originals_directory).
Proof.
  assert (E : originals_inode_map
                (snd (scan fs pool1 pool2 root_directory originals_directory
                        skip_symlinks skip_directories))
              = originals_inode_map
                  (index_originals fs pool1 originals_directory)).
  { rewrite scan_store. apply classify_run_inode_map. }
  split; [|exact E].
  rewrite E. unfold index_originals, run_pool. rewrite index_run_inode_map.
  simpl dict_get.
  destruct (existsb (Path_eqb p) (order pool1 _)) eqn:Ex.
  - apply existsb_exists in Ex. destruct Ex as [q [Hq Hpq]].
    apply Path_eqb_eq in Hpq. subst q.
    apply (Permutation_in p (order_perm pool1 _)) in Hq.
    destruct (stat fs p) as [i|e].
    + split; [intros H; inversion H; auto | intros [_ H]; inversion H; auto].
    + split; [discriminate | intros [_ H]; discriminate].
  - split; [discriminate|]. intros [Hp _]. exfalso.
    assert (Ht : existsb (Path_eqb p)
                   (order pool1
                      (originals_calls
                         (walk fs (absolute fs originals_directory)))) = true).
    { apply existsb_exists. exists p. split.
      - apply (Permutation_in p (Permutation_sym (order_perm pool1 _)) Hp).
      - apply Path_eqb_eq. reflexivity. }
    congruence.
Qed.

(** ** The accesses of a run *)

Lemma add_file_inode_to_map_accesses (fs : FileSystem) (p : Path) (s : Store) :
  accesses (add_file_inode_to_map fs p s) = [EStat p].
Proof.
  unfold add_file_inode_to_map.
  destruct (stat fs p) as [i|e]; [reflexivity | destruct e; reflexivity].
Qed.

Lemma index_run_log (fs : FileSystem) (l : list Path) (s : Store) :
  fst (run_workers (add_file_inode_to_map fs) l s) = map EStat l.
Proof.
  revert s; induction l as [|p l IH]; intros s; [reflexivity|].
  simpl. specialize (IH (after (add_file_inode_to_map fs p s))).
  destruct (run_workers (add_file_inode_to_map fs) l _) as [ev s'].
  simpl in *. rewrite add_file_inode_to_map_accesses, IH. reflexivity.
Qed.

Lemma check_inode_accesses (fs : FileSystem) (o t : Path) (s s' : Store) :
  accesses (check_inode fs o t s) = accesses (check_inode fs o t s').
Proof.
  unfold check_inode. destruct (is_relative_to t o); [reflexivity|].
  destruct (stat fs t) as [i|e]; [reflexivity | destruct e; reflexivity].
Qed.

Lemma check_if_file_is_hardlink_accesses (fs : FileSystem) (skip : bool)
    (o p : Path) (s : Store) :
  accesses (check_if_file_is_hardlink fs skip o p s)
  = check_accesses fs skip o p.
Proof.
  unfold check_accesses, check_if_file_is_hardlink.
  destruct (is_symlink fs p).
  - destruct skip; [reflexivity|].
    destruct (resolve fs p) as [t|e]; [|destruct e; reflexivity].
    simpl. rewrite (check_inode_accesses fs o t s empty_store). reflexivity.
  - simpl. rewrite (check_inode_accesses fs o p s empty_store). reflexivity.
Qed.

Lemma classify_run_log (fs : FileSystem) (skip : bool) (o : Path)
    (l : list Path) (s : Store) :
  fst (run_workers (check_if_file_is_hardlink fs skip o) l s)
  = flat_map (check_accesses fs skip o) l.
Proof.
  revert s; induction l as [|p l IH]; intros s; [reflexivity|].
  simpl. specialize (IH (after (check_if_file_is_hardlink fs skip o p s))).
  destruct (run_workers (check_if_file_is_hardlink fs skip o) l _) as [ev s'].
  simpl in *. rewrite check_if_file_is_hardlink_accesses, IH. reflexivity.
Qed.

Lemma scan_log (fs : FileSystem) (pool1 pool2 : Executor)
    (root_directory originals_directory : Path) (skip_symlinks : bool)
    (skip_directories : list Path) :
  fst (scan fs pool1 pool2 root_directory originals_directory
         skip_symlinks skip_directories)
  = EWalk (absolute fs originals_directory)
      :: map EStat
           (order pool1
              (originals_calls (walk fs (absolute fs originals_directory))))
      ++ EWalk (absolute fs root_directory)
      :: flat_map
           (check_accesses fs skip_symlinks (absolute fs originals_directory))
           (order pool2
              (root_calls skip_directories
                 (walk fs (absolute fs root_directory)))).
Proof.
  unfold scan, run_pool.
  pose proof (index_run_log fs
                (order pool1
                   (originals_calls (walk fs (absolute fs originals_directory))))
                empty_store) as H1.
  destruct (run_workers (add_file_inode_to_map fs) _ empty_store) as [ev1 s1].
  pose proof (classify_run_log fs skip_symlinks
                (absolute fs originals_directory)
                (order pool2
                   (root_calls skip_directories
                      (walk fs (absolute fs root_directory)))) s1) as H2.
  destruct (run_workers (check_if_file_is_hardlink fs _ _) _ s1) as [ev2 s2].
  simpl in *. rewrite H1, H2. reflexivity.
Qed.

(* A run with a valid [min_links], in full. *)
Lemma find_hardlinks_valid (fs : FileSystem) (pool1 pool2 : Executor)
    (root_directory originals_directory : Path) (min_links : Z)
    (to_file : option Path) (append_to_file skip_symlinks include : bool)
    (skip_directories : list Path) :
  1 <= min_links ->
  find_hardlinks fs pool1 pool2 root_directory originals_directory min_links
    to_file append_to_file skip_symlinks include skip_directories
  = let m := if append_to_file then mode_a else mode_w in
    let sc := scan fs pool1 pool2 root_directory originals_directory
                skip_symlinks skip_directories in
    let done :=
      fun opened =>
        mkRun (opened ++ fst sc) (snd sc)
          (List.concat
             (map (block include min_links)
                (dict_values (paths_per_inode (snd sc)))))
          None in
    match to_file with
    | None => done []
    | Some f =>
        match open_file fs f m with
        | FsOk _ => done [EOpen f m]
        | FsErr e => mkRun [EOpen f m] empty_store [] (Some (OSError e))
        end
    end.
Proof.
  intros Hmin. unfold find_hardlinks.
  destruct (Z.ltb_spec min_links 1) as [Hlt|_]; [lia|].
  pose proof (emit_nonempty include min_links
                (scan_groups_nonempty fs pool1 pool2 root_directory
                   originals_directory skip_symlinks skip_directories)) as Hemit.
  destruct to_file as [f|]; simpl.
  - destruct (open_file fs f (if append_to_file then mode_a else mode_w));
      simpl; [|reflexivity].
    destruct (scan fs pool1 pool2 root_directory originals_directory
                skip_symlinks skip_directories) as [ev s].
    simpl in *. rewrite Hemit. reflexivity.
  - destruct (scan fs pool1 pool2 root_directory originals_directory
                skip_symlinks skip_directories) as [ev s].
    simpl in *. rewrite Hemit. reflexivity.
Qed.

Lemma check_accesses_eq (fs : FileSystem) (skip : bool) (o p : Path) :
  check_accesses fs skip o p
  = ELstat p
      :: if is_symlink fs p then
           if skip then []
           else EReadlink p
                  :: match resolve fs p with
                     | FsOk t => if is_relative_to t o then [] else [EStat t]
                     | FsErr _ => []
                     end
         else if is_relative_to p o then [] else [EStat p].
Proof.
  assert (H : forall t,
            accesses (check_inode fs o t empty_store)
            = if is_relative_to t o then [] else [EStat t]).
  { intros t. unfold check_inode. destruct (is_relative_to t o); [reflexivity|].
    destruct (stat fs t) as [i|e]; [reflexivity | destruct e; reflexivity]. }
  unfold check_accesses, check_if_file_is_hardlink.
  destruct (is_symlink fs p).
  - destruct skip; [reflexivity|].
    destruct (resolve fs p) as [t|e]; [|destruct e; reflexivity].
    simpl. rewrite H. reflexivity.
  - simpl. rewrite H. reflexivity.
Qed.

Lemma filter_flat_map_nil (A B : Type) (f : B -> bool) (g : A -> list B)
    (l : list A) :
  (forall a, filter f (g a) = []) -> filter f (flat_map g l) = [].
Proof.
  intros H. induction l as [|a l IH]; simpl; [reflexivity|].
  rewrite filter_app, H, IH. reflexivity.
Qed.

(** X8: with [skip_symlinks], [find_hardlinks] resolves no path at all:
    no access of the run is a readlink, whatever the trees hold. *)
Theorem X8_no_resolve_when_skipping (fs : FileSystem) (pool1 pool2 : Executor)
    (root_directory originals_directory : Path) (min_links : Z)
    (to_file : option Path) (append_to_file include : bool)
    (skip_directories : list Path) :
  filter is_readlink
    (log (find_hardlinks fs pool1 pool2 root_directory originals_directory
            min_links to_file append_to_file true include skip_directories))
  = [].
Proof.
  destruct (Z.ltb_spec min_links 1) as [Hlt|Hge].
  - rewrite find_hardlinks_invalid by exact Hlt. reflexivity.
  - rewrite (find_hardlinks_valid fs pool1 pool2 root_directory
               originals_directory min_links to_file append_to_file true
               include skip_directories Hge). cbv zeta.
    assert (Hsc : filter is_readlink
                    (fst (scan fs pool1 pool2 root_directory
                            originals_directory true skip_directories)) = []).
    { rewrite scan_log. simpl. rewrite filter_app. simpl.
      rewrite filter_flat_map_nil.
      - rewrite app_nil_r.
        induction (order pool1 _) as [|a l IH]; [reflexivity | exact IH].
      - intros p. rewrite check_accesses_eq.
        destruct (is_symlink fs p); [reflexivity|].
        destruct (is_relative_to p (absolute fs originals_directory));
          reflexivity. }
    destruct to_file as [f|].
    + destruct (open_file fs f (if append_to_file then mode_a else mode_w));
        simpl; [exact Hsc | reflexivity].
    + simpl. exact Hsc.
Qed.


(** X10: a stat that fails with an error other than file-not-found is not
    caught by the worker, but it changes nothing either: the call leaves both
    dictionaries as they were, its exception stays in its Future, and the
    phase ends with the store it would have without the call.  This holds
    for the indexer and for the classifier, which gets to its stat only for a
    path outside the originals directory. *)
Theorem X10_other_errors_isolated (fs : FileSystem) (skip_symlinks : bool)
    (originals_directory_path file_path target : Path) (e : errno) :
  e <> ENOENT ->
  (stat fs file_path = FsErr e ->
   (forall s,
      after (add_file_inode_to_map fs file_path s) = s
      /\ raised (add_file_inode_to_map fs file_path s) = Some (OSError e))
   /\ forall before rest s0,
        snd (run_workers (add_file_inode_to_map fs)
               (before ++ file_path :: rest) s0)
        = snd (run_workers (add_file_inode_to_map fs) (before ++ rest) s0))
  /\ (reaches fs skip_symlinks file_path target ->
      is_relative_to target originals_directory_path = false ->
      stat fs target = FsErr e ->
      (forall s,
         after (check_if_file_is_hardlink fs skip_symlinks
                  originals_directory_path file_path s) = s
         /\ raised (check_if_file_is_hardlink fs skip_symlinks
                      originals_directory_path file_path s)
            = Some (OSError e))
      /\ forall before rest s0,
           snd (run_workers
                  (check_if_file_is_hardlink fs skip_symlinks
                     originals_directory_path)
                  (before ++ file_path :: rest) s0)
           = snd (run_workers
                    (check_if_file_is_hardlink fs skip_symlinks
                       originals_directory_path)
                    (before ++ rest) s0)).
Proof.
  intros He. split.
  - intros Hst.
    assert (H : forall s,
               after (add_file_inode_to_map fs file_path s) = s
               /\ raised (add_file_inode_to_map fs file_path s)
                  = Some (OSError e)).
    { intros s. unfold add_file_inode_to_map. rewrite Hst.
      destruct e; try congruence; split; reflexivity. }
    split; [exact H|].
    intros before rest s0. apply run_workers_drop. intros s. apply H.
  - intros Hr Hrel Hst.
    assert (H : forall s,
               after (check_if_file_is_hardlink fs skip_symlinks
                        originals_directory_path file_path s) = s
               /\ raised (check_if_file_is_hardlink fs skip_symlinks
                            originals_directory_path file_path s)
                  = Some (OSError e)).
    { intros s.
      destruct (check_if_file_is_hardlink_reaches fs skip_symlinks
                  originals_directory_path file_path target s Hr) as [-> ->].
      unfold check_inode. rewrite Hrel, Hst.
      destruct e; try congruence; split; reflexivity. }
    split; [exact H|].
    intros before rest s0. apply run_workers_drop. intros s. apply H.
Qed.

Lemma X10_witness :
  ((forall s,
      after (add_file_inode_to_map ExampleDenied.fs Example1.B s) = s
      /\ raised (add_file_inode_to_map ExampleDenied.fs Example1.B s)
         = Some (OSError EACCES))
   /\ forall before rest s0,
        snd (run_workers (add_file_inode_to_map ExampleDenied.fs)
               (before ++ Example1.B :: rest) s0)
        = snd (run_workers (add_file_inode_to_map ExampleDenied.fs)
                 (before ++ rest) s0))
  /\ ((forall s,
         after (check_if_file_is_hardlink ExampleDenied.fs true
                  Example1.originals Example1.C s) = s
         /\ raised (check_if_file_is_hardlink ExampleDenied.fs true
                      Example1.originals Example1.C s)
            = Some (OSError EACCES))
      /\ forall before rest s0,
           snd (run_workers
                  (check_if_file_is_hardlink ExampleDenied.fs true
                     Example1.originals)
                  (before ++ Example1.C :: rest) s0)
           = snd (run_workers
                    (check_if_file_is_hardlink ExampleDenied.fs true
                       Example1.originals)
                    (before ++ rest) s0)).
Proof.
  split.
  - apply (proj1 (X10_other_errors_isolated ExampleDenied.fs true
                    Example1.originals Example1.B Example1.B EACCES
                    ltac:(discriminate))).
    reflexivity.
  - apply (proj2 (X10_other_errors_isolated ExampleDenied.fs true
                    Example1.originals Example1.C Example1.C EACCES
                    ltac:(discriminate))).
    + left. split; reflexivity.
    + reflexivity.
    + reflexivity.
Defined.

(** ** Paths and skip-directories *)

Lemma prefix_of_refl (a : list string) : prefix_of a a = true.
Proof. apply prefix_of_spec. exists []. rewrite app_nil_r. reflexivity. Qed.

Lemma is_relative_to_refl (p : Path) : is_relative_to p p = true.
Proof. apply is_relative_to_spec. split; [reflexivity|]. exists []. rewrite app_nil_r. reflexivity. Qed.

Lemma is_relative_to_trans (p q r : Path) :
  is_relative_to p q = true -> is_relative_to q r = true ->
  is_relative_to p r = true.
Proof.
  rewrite !is_relative_to_spec.
  intros [Ha [s Hs]] [Hb [t Ht]]. split; [congruence|].
  exists (t ++ s). rewrite Hs, Ht, app_assoc. reflexivity.
Qed.

Lemma is_relative_to_antisym (p q : Path) :
  is_relative_to p q = true -> is_relative_to q p = true -> p = q.
Proof.
  rewrite !is_relative_to_spec.
  intros [Ha [s Hs]] [_ [t Ht]].
  destruct p as [a ps], q as [b qs]; simpl in *. subst b.
  assert (Hlen : List.length ps = (List.length ps + List.length t + List.length s)%nat).
  { rewrite Hs at 1. rewrite Ht at 1. rewrite !length_app. lia. }
  destruct s as [|x s]; [|simpl in Hlen; lia].
  rewrite app_nil_r in Hs. subst. reflexivity.
Qed.

(** X11: [is_relative_to], the test behind both the skip-directories and
    the exclusion of the originals directory, is an order on paths
    (reflexive, transitive, antisymmetric) under which a file lies under its
    directory.  Hence a skip-directory excludes itself and its whole subtree:
    a directory under a skipped directory is skipped too and none of its
    files is submitted, although the walk still visits it. *)
Theorem X11_skip_covers_subtree (skip_directories : list Path)
    (d d' : Path) (files : list string) :
  skipped skip_directories d = true ->
  is_relative_to d' d = true ->
  skipped skip_directories d' = true
  /\ root_calls skip_directories [(d', files)] = []
  /\ (forall p, is_relative_to p p = true)
  /\ (forall p f, is_relative_to (joinpath p f) p = true)
  /\ (forall p q r,
        is_relative_to p q = true -> is_relative_to q r = true ->
        is_relative_to p r = true)
  /\ (forall p q,
        is_relative_to p q = true -> is_relative_to q p = true -> p = q).
Proof.
  intros Hsk Hrel.
  assert (H : skipped skip_directories d' = true).
  { unfold skipped in *. apply existsb_exists in Hsk.
    destruct Hsk as [sd [Hsd Hd]]. apply existsb_exists. exists sd.
    split; [exact Hsd|]. exact (is_relative_to_trans d' d sd Hrel Hd). }
  split; [exact H|]. split.
  { unfold root_calls. simpl. rewrite H. reflexivity. }
  split; [exact is_relative_to_refl|]. split.
  { intros p f. apply is_relative_to_spec. split; [reflexivity|].
    exists [f]. reflexivity. }
  split; [exact is_relative_to_trans | exact is_relative_to_antisym].
Qed.

Lemma X11_witness :
  skipped [Example8.skip] (joinpath Example8.skip "deep"%string) = true
  /\ root_calls [Example8.skip]
       [(joinpath Example8.skip "deep"%string, ["Y"%string])] = []
  /\ (forall p, is_relative_to p p = true)
  /\ (forall p f, is_relative_to (joinpath p f) p = true)
  /\ (forall p q r,
        is_relative_to p q = true -> is_relative_to q r = true ->
        is_relative_to p r = true)
  /\ (forall p q,
        is_relative_to p q = true -> is_relative_to q p = true -> p = q).
Proof.
  apply (X11_skip_covers_subtree [Example8.skip] Example8.skip
           (joinpath Example8.skip "deep"%string) ["Y"%string]).
  - reflexivity.
  - reflexivity.
Defined.

Lemma skipped_relative_dirs (skip_directories : list Path) (path : Path) :
  is_absolute path = true ->
  Forall (fun sd => is_absolute sd = false) skip_directories ->
  skipped skip_directories path = false.
Proof.
  intros Ha Hsd. unfold skipped.
  destruct (existsb _ skip_directories) eqn:E; [|reflexivity].
  apply existsb_exists in E. destruct E as [sd [Hin Hrel]].
  rewrite Forall_forall in Hsd. specialize (Hsd sd Hin).
  apply is_relative_to_spec in Hrel. destruct Hrel as [Hab _]. congruence.
Qed.

(** X12: the skip-directories are compared as they are given, they are
    not made absolute as the two trees are.  When the walk of the (absolute)
    root directory yields absolute directories, a skip-directory given as a
    relative path matches none of them: a run with only relative
    skip-directories is the run with no skip-directory at all. *)
Theorem X12_relative_skip_directories_ignored (fs : FileSystem)
    (pool1 pool2 : Executor) (root_directory originals_directory : Path)
    (min_links : Z) (to_file : option Path)
    (append_to_file skip_symlinks include : bool)
    (skip_directories : list Path) :
  Forall (fun sd => is_absolute sd = false) skip_directories ->
  Forall (fun e => is_absolute (fst e) = true)
    (walk fs (absolute fs root_directory)) ->
  is_absolute (absolute fs root_directory) = true
  /\ root_calls skip_directories (walk fs (absolute fs root_directory))
     = root_calls [] (walk fs (absolute fs root_directory))
  /\ find_hardlinks fs pool1 pool2 root_directory originals_directory
       min_links to_file append_to_file skip_symlinks include skip_directories
     = find_hardlinks fs pool1 pool2 root_directory originals_directory
         min_links to_file append_to_file skip_symlinks include [].
Proof.
  intros Hsd Hwalk.
  assert (Hcalls : root_calls skip_directories
                     (walk fs (absolute fs root_directory))
                   = root_calls [] (walk fs (absolute fs root_directory))).
  { induction Hwalk as [|e es He _ IH]; [reflexivity|].
    unfold root_calls in *. simpl. rewrite IH.
    rewrite (skipped_relative_dirs skip_directories (fst e) He Hsd).
    reflexivity. }
  split.
  { unfold absolute. destruct (is_absolute root_directory) eqn:E;
      [exact E | reflexivity]. }
  split; [exact Hcalls|].
  unfold find_hardlinks, scan. rewrite Hcalls. reflexivity.
Qed.

Lemma X12_witness :
  is_absolute (absolute Example8.fs Example8.root) = true
  /\ root_calls [mkPath false ["skip"%string]]
       (walk Example8.fs (absolute Example8.fs Example8.root))
     = root_calls [] (walk Example8.fs (absolute Example8.fs Example8.root))
  /\ find_hardlinks Example8.fs fifo fifo Example8.root Example8.originals
       1 None true true false [mkPath false ["skip"%string]]
     = find_hardlinks Example8.fs fifo fifo Example8.root Example8.originals
         1 None true true false [].
Proof.
  apply (X12_relative_skip_directories_ignored Example8.fs fifo fifo
           Example8.root Example8.originals 1 None true true false
           [mkPath false ["skip"%string]]).
  - repeat constructor.
  - repeat constructor.
Defined.

(** ** The output as a whole *)

Lemma block_threshold (include : bool) (n n' : Z) (paths : list Path) :
  n <= n' ->
  block include n' paths = [] \/ block include n' paths = block include n paths.
Proof.
  intros Hle. destruct paths as [|o rest]; [left; reflexivity|].
  rewrite !block_cons.
  destruct (Z.geb_spec (Z.of_nat (List.length rest)) n') as [H'|H'];
    [|left; reflexivity].
  destruct (Z.geb_spec (Z.of_nat (List.length rest)) n) as [H|H]; [|lia].
  right. reflexivity.
Qed.

(** X13: raising [min_links] never adds a line.  For the same trees,
    schedules and options, every line printed with the larger threshold is
    printed with the smaller one, as long as both are valid. *)
Theorem X13_min_links_monotone (fs : FileSystem) (pool1 pool2 : Executor)
    (root_directory originals_directory : Path) (n n' : Z)
    (to_file : option Path) (append_to_file skip_symlinks include : bool)
    (skip_directories : list Path) (p : Path) :
  1 <= n -> n <= n' ->
  In p (printed (find_hardlinks fs pool1 pool2 root_directory
                   originals_directory n' to_file append_to_file
                   skip_symlinks include skip_directories)) ->
  In p (printed (find_hardlinks fs pool1 pool2 root_directory
                   originals_directory n to_file append_to_file
                   skip_symlinks include skip_directories)).
Proof.
  intros Hn Hle.
  rewrite (find_hardlinks_valid fs pool1 pool2 root_directory
             originals_directory n' to_file append_to_file skip_symlinks
             include skip_directories) by lia.
  rewrite (find_hardlinks_valid fs pool1 pool2 root_directory
             originals_directory n to_file append_to_file skip_symlinks
             include skip_directories) by lia.
  cbv zeta.
  assert (H : In p (List.concat
                      (map (block include n')
                         (dict_values
                            (paths_per_inode
                               (snd (scan fs pool1 pool2 root_directory
                                       originals_directory skip_symlinks
                                       skip_directories)))))) ->
              In p (List.concat
                      (map (block include n)
                         (dict_values
                            (paths_per_inode
                               (snd (scan fs pool1 pool2 root_directory
                                       originals_directory skip_symlinks
                                       skip_directories))))))).
  { intros Hp. apply in_concat in Hp. destruct Hp as [b [Hb Hp]].
    apply in_map_iff in Hb. destruct Hb as [g [<- Hg]].
    apply in_concat. exists (block include n g). split.
    - apply in_map. exact Hg.
    - destruct (block_threshold include n n' g Hle) as [E|E];
        rewrite E in Hp; [destruct Hp | exact Hp]. }
  destruct to_file as [f|].
  - destruct (open_file fs f (if append_to_file then mode_a else mode_w));
      simpl; [exact H | intros []].
  - simpl. exact H.
Qed.

Lemma X13_witness :
  In Example1.A2 (Example1.output fifo fifo None true true 1 false).
Proof.
  apply (X13_min_links_monotone Example1.fs fifo fifo Example1.root
           Example1.originals 1 2 None true true false [] Example1.A2).
  - lia.
  - lia.
  - vm_compute. tauto.
Defined.

Lemma dict_values_by_key (d : dict Z (list Path)) :
  NoDup (dict_keys d) ->
  dict_values d
  = map (fun k => match dict_get Z.eqb k d with Some g => g | None => [] end)
      (dict_keys d).
Proof.
  induction d as [|[k0 g0] d IH]; simpl; [reflexivity|].
  intros Hnd. inversion Hnd as [|? ? Hnot Hnd']; subst.
  rewrite Z.eqb_refl. f_equal. rewrite (IH Hnd') at 1.
  apply map_ext_in. intros k Hk.
  destruct (Z.eqb_spec k k0) as [->|_]; [contradiction | reflexivity].
Qed.

Lemma Permutation_flat_map_pointwise (A B : Type) (f g : A -> list B)
    (l : list A) :
  (forall a, Permutation (f a) (g a)) ->
  Permutation (flat_map f l) (flat_map g l).
Proof.
  intros H. induction l as [|a l IH]; simpl; [constructor|].
  apply Permutation_app; [apply H | exact IH].
Qed.

Lemma block_all_Permutation (min_links : Z) (g g' : list Path) :
  1 <= min_links -> Permutation g g' ->
  Permutation (block true min_links g) (block true min_links g').
Proof.
  intros Hmin Hp.
  assert (E : forall l, block true min_links l
                        = if Z.of_nat (List.length l) - 1 >=? min_links
                          then l else []).
  { intros [|o rest].
    - unfold block. simpl fst. destruct (_ >=? _); reflexivity.
    - rewrite block_cons.
      replace (Z.of_nat (List.length (o :: rest)) - 1)
        with (Z.of_nat (List.length rest)) by (simpl List.length; lia).
      reflexivity. }
  rewrite !E, (Permutation_length Hp).
  destruct (Z.of_nat (List.length g') - 1 >=? min_links);
    [exact Hp | constructor].
Qed.

Lemma scan_key_iff (fs : FileSystem) (pool1 pool2 : Executor)
    (root_directory originals_directory : Path) (skip_symlinks : bool)
    (skip_directories : list Path) (k : Z) :
  In k (dict_keys
          (paths_per_inode
             (snd (scan fs pool1 pool2 root_directory originals_directory
                     skip_symlinks skip_directories))))
  <-> index_hits fs k
        (originals_calls (walk fs (absolute fs originals_directory))) <> [].
Proof.
  assert (Hhits : index_hits fs k
                    (order pool1
                       (originals_calls
                          (walk fs (absolute fs originals_directory)))) = []
                  <-> index_hits fs k
                        (originals_calls
                           (walk fs (absolute fs originals_directory))) = []).
  { pose proof (Permutation_filter_same _ (has_inode fs k) _ _
                  (order_perm pool1
                     (originals_calls
                        (walk fs (absolute fs originals_directory))))) as Hp.
    unfold index_hits. split; intros E; rewrite E in Hp.
    - apply Permutation_nil. exact Hp.
    - apply Permutation_nil. apply Permutation_sym. exact Hp. }
  split.
  - intros Hin E. apply Hhits in E.
    apply In_dict_contains in Hin. unfold dict_contains in Hin.
    rewrite scan_get, E in Hin. discriminate.
  - intros Hne. apply dict_contains_In. unfold dict_contains.
    rewrite scan_get.
    destruct (index_hits fs k (order pool1 _)) eqn:E; [|reflexivity].
    exfalso. apply Hne. apply Hhits. reflexivity.
Qed.

Lemma scan_group_Permutation (fs : FileSystem)
    (pool1 pool2 pool1' pool2' : Executor)
    (root_directory originals_directory : Path) (skip_symlinks : bool)
    (skip_directories : list Path) (k : Z) :
  Permutation
    (match dict_get Z.eqb k
             (paths_per_inode
                (snd (scan fs pool1 pool2 root_directory originals_directory
                        skip_symlinks skip_directories)))
     with Some g => g | None => [] end)
    (match dict_get Z.eqb k
             (paths_per_inode
                (snd (scan fs pool1' pool2' root_directory originals_directory
                        skip_symlinks skip_directories)))
     with Some g => g | None => [] end).
Proof.
  rewrite !scan_get.
  pose proof (Permutation_trans
                (Permutation_filter_same _ (has_inode fs k) _ _
                   (order_perm pool1
                      (originals_calls
                         (walk fs (absolute fs originals_directory)))))
                (Permutation_sym
                   (Permutation_filter_same _ (has_inode fs k) _ _
                      (order_perm pool1'
                         (originals_calls
                            (walk fs (absolute fs originals_directory)))))))
    as Hh.
  pose proof (Permutation_trans
                (Permutation_flat_map_same _ _
                   (fun c =>
                      match classified fs skip_symlinks
                              (absolute fs originals_directory) c with
                      | Some (i, target) => if Z.eqb i k then [target] else []
                      | None => []
                      end) _ _
                   (order_perm pool2
                      (root_calls skip_directories
                         (walk fs (absolute fs root_directory)))))
                (Permutation_sym
                   (Permutation_flat_map_same _ _ _ _ _
                      (order_perm pool2'
                         (root_calls skip_directories
                            (walk fs (absolute fs root_directory)))))))
    as Hc.
  fold (index_hits fs k
          (order pool1
             (originals_calls (walk fs (absolute fs originals_directory)))))
    in Hh.
  fold (index_hits fs k
          (order pool1'
             (originals_calls (walk fs (absolute fs originals_directory)))))
    in Hh.
  destruct (index_hits fs k (order pool1 _)) as [|h hs];
    destruct (index_hits fs k (order pool1' _)) as [|h' hs'].
  - constructor.
  - apply Permutation_nil in Hh. discriminate.
  - apply Permutation_sym, Permutation_nil in Hh. discriminate.
  - apply Permutation_app; [exact Hh | exact Hc].
Qed.

(** X14: with [include_originals_in_output], what a run prints does not
    depend on the schedules of the two pools, up to the order of the lines:
    for the same trees and options, two runs print the same lines the same
    number of times. *)
Theorem X14_output_schedule_independent (fs : FileSystem)
    (pool1 pool2 pool1' pool2' : Executor)
    (root_directory originals_directory : Path) (min_links : Z)
    (to_file : option Path) (append_to_file skip_symlinks : bool)
    (skip_directories : list Path) :
  Permutation
    (printed (find_hardlinks fs pool1 pool2 root_directory
                originals_directory min_links to_file append_to_file
                skip_symlinks true skip_directories))
    (printed (find_hardlinks fs pool1' pool2' root_directory
                originals_directory min_links to_file append_to_file
                skip_symlinks true skip_directories)).
Proof.
  destruct (Z.ltb_spec min_links 1) as [Hlt|Hge].
  { rewrite !find_hardlinks_invalid by exact Hlt. constructor. }
  rewrite !(find_hardlinks_valid fs _ _ root_directory originals_directory
              min_links to_file append_to_file skip_symlinks true
              skip_directories Hge).
  cbv zeta.
  assert (H : Permutation
                (List.concat
                   (map (block true min_links)
                      (dict_values
                         (paths_per_inode
                            (snd (scan fs pool1 pool2 root_directory
                                    originals_directory skip_symlinks
                                    skip_directories))))))
                (List.concat
                   (map (block true min_links)
                      (dict_values
                         (paths_per_inode
                            (snd (scan fs pool1' pool2' root_directory
                                    originals_directory skip_symlinks
                                    skip_directories))))))).
  { rewrite !dict_values_by_key by apply scan_keys_NoDup.
    rewrite !map_map, <- !flat_map_concat_map.
    match goal with
    | |- Permutation (flat_map ?F ?K) (flat_map _ ?K') =>
        apply (Permutation_trans (l' := flat_map F K'))
    end.
    - apply Permutation_flat_map_same.
      apply NoDup_Permutation; [apply scan_keys_NoDup | apply scan_keys_NoDup|].
      intros k.
      pose proof (scan_key_iff fs pool1 pool2 root_directory
                    originals_directory skip_symlinks skip_directories k) as H1.
      pose proof (scan_key_iff fs pool1' pool2' root_directory
                    originals_directory skip_symlinks skip_directories k) as H2.
      tauto.
    - apply Permutation_flat_map_pointwise. intros k.
      apply block_all_Permutation; [exact Hge|].
      apply scan_group_Permutation. }
  destruct to_file as [f|].
  - destruct (open_file fs f (if append_to_file then mode_a else mode_w));
      simpl; [exact H | constructor].
  - simpl. exact H.
Qed.

(** X15: two empty cases.  When no file of the originals walk can be
    stat'ed - the walk is empty, the directory is missing, every file has
    vanished - PathsPerInode stays empty and nothing is printed, whatever the
    root tree holds.  When no file of the root walk is submitted, the scan
    ends with the store the indexer left. *)
Theorem X15_empty_trees (fs : FileSystem) (pool1 pool2 : Executor)
    (root_directory originals_directory : Path) (min_links : Z)
    (to_file : option Path) (append_to_file skip_symlinks include : bool)
    (skip_directories : list Path) :
  ((forall p inode,
      In p (originals_calls (walk fs (absolute fs originals_directory))) ->
      stat fs p <> FsOk inode) ->
   paths_per_inode
     (snd (scan fs pool1 pool2 root_directory originals_directory
             skip_symlinks skip_directories)) = []
   /\ printed (find_hardlinks fs pool1 pool2 root_directory
                 originals_directory min_links to_file append_to_file
                 skip_symlinks include skip_directories) = [])
  /\ (root_calls skip_directories (walk fs (absolute fs root_directory)) = [] ->
      snd (scan fs pool1 pool2 root_directory originals_directory
             skip_symlinks skip_directories)
      = index_originals fs pool1 originals_directory).
Proof.
  split.
  - intros Hnone.
    assert (E : paths_per_inode
                  (snd (scan fs pool1 pool2 root_directory originals_directory
                          skip_symlinks skip_directories)) = []).
    { destruct (paths_per_inode
                  (snd (scan fs pool1 pool2 root_directory originals_directory
                          skip_symlinks skip_directories)))
        as [|[k g] d] eqn:Ed; [reflexivity|].
      exfalso.
      assert (Hk : In k (dict_keys
                           (paths_per_inode
                              (snd (scan fs pool1 pool2 root_directory
                                      originals_directory skip_symlinks
                                      skip_directories)))))
        by (rewrite Ed; left; reflexivity).
      apply scan_key_iff in Hk.
      destruct (index_hits fs k _) as [|h hs] eqn:Eh; [congruence|].
      assert (Hh : In h (index_hits fs k
                           (originals_calls
                              (walk fs (absolute fs originals_directory)))))
        by (rewrite Eh; left; reflexivity).
      apply index_hits_In in Hh. destruct Hh as [Hh Hst].
      exact (Hnone h k Hh Hst). }
    split; [exact E|].
    destruct (printed (find_hardlinks fs pool1 pool2 root_directory
                         originals_directory min_links to_file append_to_file
                         skip_symlinks include skip_directories))
      as [|q l] eqn:Ep; [reflexivity|].
    exfalso.
    assert (Hq : In q (printed (find_hardlinks fs pool1 pool2 root_directory
                                  originals_directory min_links to_file
                                  append_to_file skip_symlinks include
                                  skip_directories)))
      by (rewrite Ep; left; reflexivity).
    apply printed_in_group in Hq. destruct Hq as [k [g [Hin _]]].
    rewrite E in Hin. destruct Hin.
  - intros Hempty. rewrite scan_store, Hempty.
    assert (Hord : order pool2 [] = []).
    { apply Permutation_nil. apply Permutation_sym. apply order_perm. }
    rewrite Hord. reflexivity.
Qed.

Lemma X15_witness :
  (paths_per_inode
     (snd (scan Example1.fs fifo fifo Example1.root (abs ["none"%string])
             true [])) = []
   /\ printed (find_hardlinks Example1.fs fifo fifo Example1.root
                 (abs ["none"%string]) 1 None true true false []) = [])
  /\ snd (scan Example1.fs fifo fifo (abs ["none"%string]) Example1.originals
            true [])
     = index_originals Example1.fs fifo Example1.originals.
Proof.
  split.
  - apply (proj1 (X15_empty_trees Example1.fs fifo fifo Example1.root
                    (abs ["none"%string]) 1 None true true false [])).
    intros p inode H. vm_compute in H. destruct H.
  - apply (proj2 (X15_empty_trees Example1.fs fifo fifo (abs ["none"%string])
                    Example1.originals 1 None true true false [])).
    reflexivity.
Defined.




(** * Properties of the Jellyfin command *)

Module JellyfinFacts.
Import Jellyfin.

(** ** Sets *)

Lemma mem_In (x : string) (s : list string) : mem x s = true <-> In x s.
Proof.
  induction s as [|y s IH]; simpl.
  - split; [discriminate | intros []].
  - rewrite orb_true_iff, String.eqb_eq, IH. split; intros [H|H]; auto.
Qed.

Lemma mem_false (x : string) (s : list string) : mem x s = false <-> ~ In x s.
Proof.
  rewrite <- mem_In. destruct (mem x s); split; congruence.
Qed.

Lemma set_add_spec (x y : string) (s : list string) :
  In y (set_add x s) <-> y = x \/ In y s.
Proof.
  unfold set_add. destruct (mem x s) eqn:E.
  - apply mem_In in E. split; [auto | intros [->|H]; auto].
  - rewrite in_app_iff. simpl. split; intros [H|H]; auto.
    destruct H as [H|[]]; auto.
Qed.

Lemma set_add_NoDup (x : string) (s : list string) :
  NoDup s -> NoDup (set_add x s).
Proof.
  intros Hnd. unfold set_add. destruct (mem x s) eqn:E; [exact Hnd|].
  apply mem_false in E. apply NoDup_app; [exact Hnd | repeat constructor; intros [] |].
  intros a Ha [<-|[]]. contradiction.
Qed.

Lemma fold_set_add (l acc : list string) :
  NoDup acc ->
  NoDup (fold_left (fun s x => set_add x s) l acc)
  /\ forall y, In y (fold_left (fun s x => set_add x s) l acc)
               <-> In y acc \/ In y l.
Proof.
  revert acc; induction l as [|x l IH]; intros acc Hnd; simpl.
  - split; [exact Hnd|]. intros y. tauto.
  - destruct (IH (set_add x acc) (set_add_NoDup x acc Hnd)) as [H1 H2].
    split; [exact H1|]. intros y. rewrite H2, set_add_spec.
    split; intros H; intuition auto.
Qed.

Lemma set_of_NoDup (l : list string) : NoDup (set_of l).
Proof. apply (fold_set_add l []). constructor. Qed.

Lemma set_of_In (l : list string) (y : string) : In y (set_of l) <-> In y l.
Proof.
  unfold set_of. rewrite (proj2 (fold_set_add l [] (NoDup_nil _))). simpl. tauto.
Qed.

Lemma set_difference_In (a b : list string) (y : string) :
  In y (set_difference a b) <-> In y a /\ ~ In y b.
Proof.
  unfold set_difference. rewrite filter_In, negb_true_iff, mem_false. tauto.
Qed.

Lemma set_remove_Permutation (x : string) (s : list string) :
  NoDup s -> In x s -> Permutation (set_remove x s ++ [x]) s.
Proof.
  induction s as [|y s IH]; [intros _ []|].
  intros Hnd Hin. inversion Hnd as [|? ? Hnot Hnd']; subst. simpl.
  destruct (String.eqb_spec x y) as [->|N]; simpl.
  - assert (E : set_remove y s = s).
    { unfold set_remove. clear IH Hnd Hnd' Hin.
      induction s as [|z s IH]; [reflexivity|]. simpl.
      destruct (String.eqb_spec y z) as [->|_].
      - exfalso. apply Hnot. left. reflexivity.
      - simpl. rewrite IH; [reflexivity|]. intros H. apply Hnot. right. exact H. }
    fold (set_remove y s). rewrite E.
    apply Permutation_sym. apply Permutation_cons_append.
  - constructor. apply IH; [exact Hnd'|].
    destruct Hin as [E|H]; [congruence | exact H].
Qed.

(** ** The shape of a run that ends normally *)

Lemma first_error_None (responses : list (Request * option exn)) :
  first_error responses = None -> Forall (fun r => snd r = None) responses.
Proof.
  induction responses as [|[r [e|]] l IH]; simpl; intros H.
  - constructor.
  - discriminate.
  - constructor; [reflexivity | exact (IH H)].
Qed.

Lemma run_success (w : World) (sets network : Ordering)
    (library_name parent_folder_path : string)
    (api_key path_replace_from path_replace_to : option string) :
  outcome (add_all_subdirectories_to_library w sets network library_name
             parent_folder_path api_key path_replace_from path_replace_to)
  = None ->
  exists entries libraries library,
    truthy api_key = true
    /\ scandir w parent_folder_path = Some entries
    /\ virtual_folders w = Ok libraries
    /\ find (fun lib => String.eqb (Name lib) library_name) libraries
       = Some library
    /\ ((arrange sets
           (set_difference
              (candidate_paths path_replace_from path_replace_to entries)
              (set_of (Locations library))) = []
         /\ calls (add_all_subdirectories_to_library w sets network
                     library_name parent_folder_path api_key
                     path_replace_from path_replace_to)
            = Some [CScandir parent_folder_path; CGet]
         /\ messages (add_all_subdirectories_to_library w sets network
                        library_name parent_folder_path api_key
                        path_replace_from path_replace_to)
            = [NoNewPaths])
        \/ exists last_path others batch,
             arrange sets
               (set_difference
                  (candidate_paths path_replace_from path_replace_to entries)
                  (set_of (Locations library))) = last_path :: others
             /\ Permutation batch
                  (set_remove last_path
                     (set_difference
                        (candidate_paths path_replace_from path_replace_to
                           entries)
                        (set_of (Locations library))))
             /\ calls (add_all_subdirectories_to_library w sets network
                         library_name parent_folder_path api_key
                         path_replace_from path_replace_to)
                = Some ([CScandir parent_folder_path; CGet]
                          ++ map (fun p =>
                                    CPost (mkRequest (Name library) p "false"))
                               batch
                          ++ [CPost (mkRequest (Name library) last_path "true")])
             /\ Forall (fun p =>
                          forall status,
                            post_paths w (mkRequest (Name library) p "false")
                            <> Err status) batch
             /\ (forall status,
                   post_paths w (mkRequest (Name library) last_path "true")
                   <> Err status)
             /\ messages (add_all_subdirectories_to_library w sets network
                            library_name parent_folder_path api_key
                            path_replace_from path_replace_to)
                = [Added
                     (List.length
                        (candidate_paths path_replace_from path_replace_to
                           entries))
                     (Name library)]).
Proof.
  unfold add_all_subdirectories_to_library, get_libraries.
  destruct (truthy api_key) eqn:Ekey; simpl negb; cbv iota; [|discriminate].
  destruct ((truthy path_replace_from && negb (truthy path_replace_to))
            || (truthy path_replace_to && negb (truthy path_replace_from)));
    [discriminate|].
  destruct (scandir w parent_folder_path) as [entries|]; [|discriminate].
  destruct (virtual_folders w) as [libraries|status|];
    [|discriminate|discriminate].
  destruct (find _ libraries) as [library|] eqn:Efind; [|discriminate].
  intros Hout. exists entries, libraries, library.
  repeat (split; [first [reflexivity | assumption]|]).
  destruct (arrange sets (set_difference _ _)) as [|last_path others] eqn:Earr.
  - left. repeat split; reflexivity.
  - right.
    set (new_paths := set_remove last_path _) in *.
    set (responses := arrange network _) in *.
    destruct (first_error responses) eqn:Eerr; [discriminate Hout|].
    assert (Hperm : Permutation responses
                      (map (fun path =>
                              add_path_to_library w (Name library) path false)
                         (arrange sets new_paths)))
      by apply arrange_perm.
    destruct (snd (add_path_to_library w (Name library) last_path true))
      eqn:Elast; [discriminate Hout|].
    exists last_path, others, (map (fun r => body_Path (fst r)) responses).
    split; [reflexivity|]. split.
    { apply Permutation_trans with (map (fun r => body_Path (fst r))
                                      (map (fun path =>
                                              add_path_to_library w
                                                (Name library) path false)
                                         (arrange sets new_paths))).
      - apply Permutation_map. exact Hperm.
      - rewrite map_map. simpl. rewrite map_id. apply arrange_perm. }
    assert (Hreq : Forall (fun r =>
                             fst r = mkRequest (Name library)
                                       (body_Path (fst r)) "false"
                             /\ snd r
                                = match post_paths w (fst r) with
                                  | Err status =>
                                      Some (ClientResponseError status)
                                  | _ => None
                                  end) responses).
    { rewrite Forall_forall. intros r Hr.
      apply (Permutation_in r Hperm) in Hr. apply in_map_iff in Hr.
      destruct Hr as [p [<- _]]. split; reflexivity. }
    pose proof (first_error_None responses Eerr) as Hok.
    split; [|split; [|split]].
    + assert (Hmap : map (fun r => CPost (fst r)) responses
                     = map (fun p => CPost (mkRequest (Name library) p "false"))
                         (map (fun r => body_Path (fst r)) responses)).
      { rewrite map_map. apply map_ext_in. intros r Hr.
        rewrite Forall_forall in Hreq.
        destruct (Hreq r Hr) as [E _]. rewrite <- E. reflexivity. }
      unfold calls. rewrite Hmap. reflexivity.
    + rewrite Forall_forall. intros p Hp. apply in_map_iff in Hp.
      destruct Hp as [r [<- Hr]]. rewrite Forall_forall in Hreq, Hok.
      destruct (Hreq r Hr) as [E1 E2]. specialize (Hok r Hr).
      rewrite E2 in Hok. rewrite <- E1.
      destruct (post_paths w (fst r)) as [u|status'|];
        [discriminate | discriminate Hok | discriminate].
    + simpl in Elast.
      destruct (post_paths w _) as [u|status'|];
        [discriminate | discriminate Elast | discriminate].
    + reflexivity.
Qed.

Lemma candidate_paths_In (path_replace_from path_replace_to : option string)
    (entries : list DirEntry) (p : string) :
  In p (candidate_paths path_replace_from path_replace_to entries)
  <-> exists dir,
        In dir entries /\ is_dir dir = true
        /\ p = if truthy path_replace_from && truthy path_replace_to
               then str_replace (text path_replace_from)
                      (text path_replace_to) (path dir)
               else path dir.
Proof.
  unfold candidate_paths. rewrite set_of_In, in_map_iff. split.
  - intros [dir [<- Hd]]. apply filter_In in Hd. exists dir. tauto.
  - intros [dir [Hd [Hdir ->]]]. exists dir. split; [reflexivity|].
    apply filter_In. tauto.
Qed.

Lemma new_paths_NoDup (a b : list string) :
  NoDup (set_difference (set_of a) b).
Proof. apply NoDup_filter. apply set_of_NoDup. Qed.

(* The POSTs of a run that ends normally, as requests. *)
Lemma run_success_requests (w : World) (sets network : Ordering)
    (library_name parent_folder_path : string)
    (api_key path_replace_from path_replace_to : option string) :
  outcome (add_all_subdirectories_to_library w sets network library_name
             parent_folder_path api_key path_replace_from path_replace_to)
  = None ->
  exists entries libraries library batch final,
    scandir w parent_folder_path = Some entries
    /\ virtual_folders w = Ok libraries
    /\ find (fun lib => String.eqb (Name lib) library_name) libraries
       = Some library
    /\ Name library = library_name
    /\ calls (add_all_subdirectories_to_library w sets network library_name
                parent_folder_path api_key path_replace_from path_replace_to)
       = Some ([CScandir parent_folder_path; CGet]
                 ++ map CPost
                      (map (fun p => mkRequest library_name p "false") batch
                         ++ map (fun p => mkRequest library_name p "true")
                              final))
    /\ Permutation (batch ++ final)
         (set_difference
            (candidate_paths path_replace_from path_replace_to entries)
            (set_of (Locations library)))
    /\ ((batch = [] /\ final = []
         /\ messages (add_all_subdirectories_to_library w sets network
                        library_name parent_folder_path api_key
                        path_replace_from path_replace_to) = [NoNewPaths])
        \/ (exists last_path, final = [last_path])
           /\ messages (add_all_subdirectories_to_library w sets network
                          library_name parent_folder_path api_key
                          path_replace_from path_replace_to)
              = [Added
                   (List.length
                      (candidate_paths path_replace_from path_replace_to
                         entries))
                   library_name]).
Proof.
  intros Hout.
  destruct (run_success w sets network library_name parent_folder_path api_key
              path_replace_from path_replace_to Hout)
    as [entries [libraries [library [_ [Hscan [Hget [Hfind Hrest]]]]]]].
  assert (Hname : Name library = library_name).
  { apply find_some in Hfind. destruct Hfind as [_ E].
    apply String.eqb_eq in E. exact E. }
  destruct Hrest as [[Harr [Hcalls Hmsg]]
                    | [last_path [others [batch [Harr [Hperm [Hcalls [_ [_ Hmsg]]]]]]]]].
  - exists entries, libraries, library, [], [].
    repeat (split; [first [assumption | reflexivity]|]).
    split.
    + pose proof (arrange_perm sets
                    (set_difference
                       (candidate_paths path_replace_from path_replace_to
                          entries)
                       (set_of (Locations library)))) as Hp.
      rewrite Harr in Hp. exact Hp.
    + left. auto.
  - exists entries, libraries, library, batch, [last_path].
    repeat (split; [first [assumption | reflexivity]|]).
    split; [|split].
    + rewrite Hcalls, <- Hname. simpl map. rewrite map_app, map_map.
      reflexivity.
    + apply Permutation_trans
        with (set_remove last_path
                (set_difference
                   (candidate_paths path_replace_from path_replace_to entries)
                   (set_of (Locations library))) ++ [last_path]).
      * apply Permutation_app_tail. exact Hperm.
      * apply set_remove_Permutation; [apply new_paths_NoDup|].
        apply (Permutation_in last_path
                 (arrange_perm sets
                    (set_difference
                       (candidate_paths path_replace_from path_replace_to
                          entries)
                       (set_of (Locations library))))).
        rewrite Harr. left. reflexivity.
    + right. split; [exists last_path; reflexivity|].
      rewrite Hmsg, Hname. reflexivity.
Qed.

(** X17: a run of [add_all_subdirectories_to_library] that ends normally
    has scanned the folder, fetched the libraries once, and then made one
    POST for each new path and no other: the paths posted are, each exactly
    once, the directories of the folder (after the replacement, when one is
    given) that are not yet locations of the library; files are never
    posted, nor a path the library already has, and every POST names the
    library asked for. *)
Theorem X17_posts_exactly_the_new_paths (w : World) (sets network : Ordering)
    (library_name parent_folder_path : string)
    (api_key path_replace_from path_replace_to : option string) :
  outcome (add_all_subdirectories_to_library w sets network library_name
             parent_folder_path api_key path_replace_from path_replace_to)
  = None ->
  exists entries libraries library requests,
    scandir w parent_folder_path = Some entries
    /\ virtual_folders w = Ok libraries
    /\ find (fun lib => String.eqb (Name lib) library_name) libraries
       = Some library
    /\ calls (add_all_subdirectories_to_library w sets network library_name
                parent_folder_path api_key path_replace_from path_replace_to)
       = Some ([CScandir parent_folder_path; CGet] ++ map CPost requests)
    /\ NoDup (map body_Path requests)
    /\ Forall (fun r => body_Name r = library_name) requests
    /\ forall p,
         In p (map body_Path requests)
         <-> (exists dir,
                In dir entries /\ is_dir dir = true
                /\ p = if truthy path_replace_from && truthy path_replace_to
                       then str_replace (text path_replace_from)
                              (text path_replace_to) (path dir)
                       else path dir)
             /\ ~ In p (Locations library).
Proof.
  intros Hout.
  destruct (run_success_requests w sets network library_name
              parent_folder_path api_key path_replace_from path_replace_to Hout)
    as [entries [libraries [library [batch [final
         [Hscan [Hget [Hfind [Hname [Hcalls [Hperm _]]]]]]]]]]].
  exists entries, libraries, library,
    (map (fun p => mkRequest library_name p "false") batch
       ++ map (fun p => mkRequest library_name p "true") final).
  repeat (split; [first [assumption | reflexivity]|]).
  assert (Hpaths : map body_Path
                     (map (fun p => mkRequest library_name p "false") batch
                        ++ map (fun p => mkRequest library_name p "true") final)
                   = batch ++ final).
  { rewrite map_app, !map_map. simpl. rewrite !map_id. reflexivity. }
  rewrite Hpaths. split; [|split].
  - apply (Permutation_NoDup (Permutation_sym Hperm)). apply new_paths_NoDup.
  - apply Forall_app. split; apply Forall_forall; intros r Hr;
      apply in_map_iff in Hr; destruct Hr as [p [<- _]]; reflexivity.
  - intros p. rewrite <- candidate_paths_In, <- (set_of_In (Locations library)),
                <- set_difference_In.
    split; intros H.
    + apply (Permutation_in p Hperm H).
    + apply (Permutation_in p (Permutation_sym Hperm) H).
Qed.

Lemma X17_witness :
  exists entries libraries library requests,
    scandir Example.world "/mnt/tv" = Some entries
    /\ virtual_folders Example.world = Ok libraries
    /\ find (fun lib => String.eqb (Name lib) "Shows") libraries = Some library
    /\ calls (add_all_subdirectories_to_library Example.world in_order
                reversed "Shows" "/mnt/tv" (Some "key"%string)
                (Some "/mnt"%string) (Some "/data"%string))
       = Some ([CScandir "/mnt/tv"; CGet] ++ map CPost requests)
    /\ NoDup (map body_Path requests)
    /\ Forall (fun r => body_Name r = "Shows"%string) requests
    /\ forall p,
         In p (map body_Path requests)
         <-> (exists dir,
                In dir entries /\ is_dir dir = true
                /\ p = if truthy (Some "/mnt"%string)
                          && truthy (Some "/data"%string)
                       then str_replace (text (Some "/mnt"%string))
                              (text (Some "/data"%string)) (path dir)
                       else path dir)
             /\ ~ In p (Locations library).
Proof.
  apply (X17_posts_exactly_the_new_paths Example.world in_order reversed
           "Shows" "/mnt/tv" (Some "key"%string) (Some "/mnt"%string)
           (Some "/data"%string)).
  reflexivity.
Defined.

(** X18: in a run that ends normally, the library is refreshed once, by
    the last request: either nothing is posted and the message says that
    there is nothing new, or the POSTs are some requests with
    refreshLibrary=false followed by exactly one with refreshLibrary=true. *)
Theorem X18_refresh_once_at_the_end (w : World) (sets network : Ordering)
    (library_name parent_folder_path : string)
    (api_key path_replace_from path_replace_to : option string) :
  outcome (add_all_subdirectories_to_library w sets network library_name
             parent_folder_path api_key path_replace_from path_replace_to)
  = None ->
  exists made,
    calls (add_all_subdirectories_to_library w sets network library_name
             parent_folder_path api_key path_replace_from path_replace_to)
    = Some made
    /\ ((posted made = []
         /\ messages (add_all_subdirectories_to_library w sets network
                        library_name parent_folder_path api_key
                        path_replace_from path_replace_to) = [NoNewPaths])
        \/ exists batch last,
             posted made = batch ++ [last]
             /\ Forall (fun r => refreshLibrary r = "false"%string) batch
             /\ refreshLibrary last = "true"%string).
Proof.
  intros Hout.
  destruct (run_success_requests w sets network library_name
              parent_folder_path api_key path_replace_from path_replace_to Hout)
    as [entries [libraries [library [batch [final
         [_ [_ [_ [_ [Hcalls [_ Hcase]]]]]]]]]]].
  eexists. split; [exact Hcalls|].
  assert (Hposted : forall rs,
            posted ([CScandir parent_folder_path; CGet] ++ map CPost rs) = rs).
  { intros rs. unfold posted. simpl.
    induction rs as [|r rs IH]; simpl; [reflexivity | rewrite IH; reflexivity]. }
  rewrite Hposted.
  destruct Hcase as [[-> [-> Hmsg]] | [[last_path ->] _]].
  - left. split; [reflexivity | exact Hmsg].
  - right. exists (map (fun p => mkRequest library_name p "false") batch),
      (mkRequest library_name last_path "true").
    split; [reflexivity|]. split; [|reflexivity].
    apply Forall_forall. intros r Hr. apply in_map_iff in Hr.
    destruct Hr as [p [<- _]]. reflexivity.
Qed.

Lemma X18_witness :
  exists made,
    calls (add_all_subdirectories_to_library Example.world in_order reversed
             "Shows" "/mnt/tv" (Some "key"%string) None None)
    = Some made
    /\ ((posted made = []
         /\ messages (add_all_subdirectories_to_library Example.world in_order
                        reversed "Shows" "/mnt/tv" (Some "key"%string) None
                        None) = [NoNewPaths])
        \/ exists batch last,
             posted made = batch ++ [last]
             /\ Forall (fun r => refreshLibrary r = "false"%string) batch
             /\ refreshLibrary last = "true"%string).
Proof.
  apply (X18_refresh_once_at_the_end Example.world in_order reversed "Shows"
           "/mnt/tv" (Some "key"%string) None None).
  reflexivity.
Defined.

Lemma filter_split_length (A : Type) (f : A -> bool) (l : list A) :
  (List.length (filter (fun x => negb (f x)) l) + List.length (filter f l)
   = List.length l)%nat.
Proof.
  induction l as [|a l IH]; simpl; [reflexivity|].
  destruct (f a); simpl; lia.
Qed.

Lemma mem_set_of (x : string) (l : list string) : mem x (set_of l) = mem x l.
Proof.
  destruct (mem x l) eqn:E.
  - apply mem_In. apply set_of_In. apply mem_In. exact E.
  - apply mem_false. rewrite set_of_In. apply mem_false. exact E.
Qed.

(** X19: the number in the closing message is the number of directories
    found (distinct paths, after the replacement), not the number of paths
    added: it is the number of POSTs made plus the number of those paths
    that were locations of the library already. *)
Theorem X19_added_message_counts_all_candidates (w : World)
    (sets network : Ordering) (library_name parent_folder_path : string)
    (api_key path_replace_from path_replace_to : option string)
    (count : nat) (name : string) :
  outcome (add_all_subdirectories_to_library w sets network library_name
             parent_folder_path api_key path_replace_from path_replace_to)
  = None ->
  messages (add_all_subdirectories_to_library w sets network library_name
              parent_folder_path api_key path_replace_from path_replace_to)
  = [Added count name] ->
  exists entries libraries library made,
    scandir w parent_folder_path = Some entries
    /\ virtual_folders w = Ok libraries
    /\ find (fun lib => String.eqb (Name lib) library_name) libraries
       = Some library
    /\ calls (add_all_subdirectories_to_library w sets network library_name
                parent_folder_path api_key path_replace_from path_replace_to)
       = Some made
    /\ name = library_name
    /\ count
       = List.length (candidate_paths path_replace_from path_replace_to entries)
    /\ (count
        = List.length (posted made)
          + List.length
              (filter (fun p => mem p (Locations library))
                 (candidate_paths path_replace_from path_replace_to entries)))%nat.
Proof.
  intros Hout Hmsg.
  destruct (run_success_requests w sets network library_name
              parent_folder_path api_key path_replace_from path_replace_to Hout)
    as [entries [libraries [library [batch [final
         [Hscan [Hget [Hfind [Hname [Hcalls [Hperm Hcase]]]]]]]]]]].
  destruct Hcase as [[_ [_ Hm]] | [_ Hm]]; rewrite Hm in Hmsg;
    [discriminate|]. inversion Hmsg; subst count name.
  exists entries, libraries, library. eexists.
  repeat (split; [first [eassumption | reflexivity]|]).
  assert (Hposted : forall rs,
            posted ([CScandir parent_folder_path; CGet] ++ map CPost rs) = rs).
  { intros rs. unfold posted. simpl.
    induction rs as [|r rs IH]; simpl; [reflexivity | rewrite IH; reflexivity]. }
  rewrite Hposted, length_app, !length_map, <- length_app,
    (Permutation_length Hperm).
  unfold set_difference.
  rewrite <- (filter_split_length _
                (fun p => mem p (Locations library))
                (candidate_paths path_replace_from path_replace_to entries)).
  f_equal. f_equal. apply filter_ext. intros p. rewrite mem_set_of. reflexivity.
Qed.

Lemma X19_witness :
  exists entries libraries library made,
    scandir Example.world "/mnt/tv" = Some entries
    /\ virtual_folders Example.world = Ok libraries
    /\ find (fun lib => String.eqb (Name lib) "Shows") libraries = Some library
    /\ calls (add_all_subdirectories_to_library Example.world in_order
                in_order "Shows" "/mnt/tv" (Some "key"%string)
                (Some "/mnt"%string) (Some "/data"%string))
       = Some made
    /\ "Shows"%string = "Shows"%string
    /\ 2%nat
       = List.length
           (candidate_paths (Some "/mnt"%string) (Some "/data"%string) entries)
    /\ (2
        = List.length (posted made)
          + List.length
              (filter (fun p => mem p (Locations library))
                 (candidate_paths (Some "/mnt"%string) (Some "/data"%string)
                    entries)))%nat.
Proof.
  apply (X19_added_message_counts_all_candidates Example.world in_order
           in_order "Shows" "/mnt/tv" (Some "key"%string) (Some "/mnt"%string)
           (Some "/data"%string) 2 "Shows").
  - reflexivity.
  - reflexivity.
Defined.

Lemma first_error_of_posts (w : World) (name : string)
    (responses : list (Request * option exn)) (e : exn) :
  Forall (fun r => exists p, r = add_path_to_library w name p false) responses ->
  first_error responses = Some e ->
  exists status, e = ClientResponseError status.
Proof.
  induction 1 as [|[r o] l [p Hr] _ IH]; simpl; [discriminate|].
  destruct o as [e'|].
  - intros E. inversion E; subst e'. unfold add_path_to_library in Hr.
    injection Hr as _ Ho.
    destruct (post_paths w _) as [u|status|]; [discriminate| |discriminate].
    inversion Ho. exists status. reflexivity.
  - exact IH.
Qed.

(** X20: the command posts nothing before everything it needs is in
    place.  With a missing or empty API key, or with exactly one of the two
    replacement options, it raises its ValueError without a single access.
    And whenever a POST is made, or the concurrent POSTs have been started,
    the key was there, the options were consistent, the folder could be
    scanned, the GET was answered with a valid list of libraries, the list
    has the library asked for, and some directory of the folder is not yet a
    location of it: a failing scan or GET, an unreadable answer or an unknown
    library never leads to a POST. *)
Theorem X20_no_post_before_all_is_checked (w : World)
    (sets network : Ordering) (library_name parent_folder_path : string)
    (api_key path_replace_from path_replace_to : option string) :
  ((truthy api_key = false
    \/ truthy path_replace_from <> truthy path_replace_to) ->
   calls (add_all_subdirectories_to_library w sets network library_name
            parent_folder_path api_key path_replace_from path_replace_to)
   = Some []
   /\ messages (add_all_subdirectories_to_library w sets network library_name
                  parent_folder_path api_key path_replace_from
                  path_replace_to) = []
   /\ exists msg,
        outcome (add_all_subdirectories_to_library w sets network
                   library_name parent_folder_path api_key path_replace_from
                   path_replace_to) = Some (ValueError msg))
  /\ ((calls (add_all_subdirectories_to_library w sets network library_name
                parent_folder_path api_key path_replace_from path_replace_to)
       = None
       \/ exists made,
            calls (add_all_subdirectories_to_library w sets network
                     library_name parent_folder_path api_key
                     path_replace_from path_replace_to) = Some made
            /\ posted made <> []) ->
      truthy api_key = true
      /\ truthy path_replace_from = truthy path_replace_to
      /\ exists entries libraries library p,
           scandir w parent_folder_path = Some entries
           /\ virtual_folders w = Ok libraries
           /\ find (fun lib => String.eqb (Name lib) library_name) libraries
              = Some library
           /\ In p (candidate_paths path_replace_from path_replace_to entries)
           /\ ~ In p (Locations library)).
Proof.
  assert (Hflags : (truthy path_replace_from && negb (truthy path_replace_to))
                   || (truthy path_replace_to && negb (truthy path_replace_from))
                   = negb (Bool.eqb (truthy path_replace_from)
                             (truthy path_replace_to)))
    by (destruct (truthy path_replace_from), (truthy path_replace_to);
        reflexivity).
  unfold add_all_subdirectories_to_library, get_libraries. rewrite Hflags.
  split.
  - intros Hbad.
    destruct (truthy api_key) eqn:Ekey; simpl negb; cbv iota.
    + destruct Hbad as [Hbad|Hbad]; [discriminate|].
      destruct (Bool.eqb (truthy path_replace_from) (truthy path_replace_to))
        eqn:E.
      * apply Bool.eqb_prop in E. contradiction.
      * simpl. repeat split. eexists. reflexivity.
    + simpl. repeat split. eexists. reflexivity.
  - assert (Hnone : forall (cs : list Call) (ms : list Message)
                           (o : option exn),
              (cs = [] \/ cs = [CScandir parent_folder_path]
               \/ cs = [CScandir parent_folder_path; CGet]) ->
              ~ (calls (mkRun (Some cs) ms o) = None
                 \/ exists made,
                      calls (mkRun (Some cs) ms o) = Some made
                      /\ posted made <> [])).
    { intros cs ms o Hcs [H|[made [H Hp]]]; [discriminate H|].
      simpl in H. injection H as H. subst made.
      destruct Hcs as [Hcs|[Hcs|Hcs]]; subst cs; apply Hp; reflexivity. }
    destruct (truthy api_key) eqn:Ekey; simpl negb; cbv iota;
      [|intros H; exfalso; revert H; apply Hnone; auto].
    destruct (Bool.eqb (truthy path_replace_from) (truthy path_replace_to))
      eqn:Eflags; simpl negb; cbv iota;
      [|intros H; exfalso; revert H; apply Hnone; auto].
    apply Bool.eqb_prop in Eflags.
    destruct (scandir w parent_folder_path) as [entries|];
      [|intros H; exfalso; revert H; apply Hnone; auto].
    destruct (virtual_folders w) as [libraries|status|];
      try (intros H; exfalso; revert H; apply Hnone; auto).
    destruct (find _ libraries) as [library|] eqn:Efind;
      [|intros H; exfalso; revert H; apply Hnone; auto].
    destruct (arrange sets (set_difference _ _)) as [|last_path others] eqn:Earr;
      [intros H; exfalso; revert H; apply Hnone; auto|].
    intros _. split; [reflexivity|]. split; [exact Eflags|].
    exists entries, libraries, library, last_path.
    repeat (split; [first [reflexivity | assumption]|]).
    assert (Hlast : In last_path
                      (set_difference
                         (candidate_paths path_replace_from path_replace_to
                            entries)
                         (set_of (Locations library)))).
    { apply (Permutation_in last_path (arrange_perm sets _)).
      rewrite Earr. left. reflexivity. }
    apply set_difference_In in Hlast. rewrite set_of_In in Hlast. exact Hlast.
Qed.

Lemma X20_witness :
  (calls (add_all_subdirectories_to_library Example.world in_order in_order
            "Shows" "/mnt/tv" (Some ""%string) None None) = Some []
   /\ messages (add_all_subdirectories_to_library Example.world in_order
                  in_order "Shows" "/mnt/tv" (Some ""%string) None None) = []
   /\ exists msg,
        outcome (add_all_subdirectories_to_library Example.world in_order
                   in_order "Shows" "/mnt/tv" (Some ""%string) None None)
        = Some (ValueError msg))
  /\ (truthy (Some "key"%string) = true
      /\ truthy None = truthy None
      /\ exists entries libraries library p,
           scandir Example.world "/mnt/tv" = Some entries
           /\ virtual_folders Example.world = Ok libraries
           /\ find (fun lib => String.eqb (Name lib) "Shows") libraries
              = Some library
           /\ In p (candidate_paths None None entries)
           /\ ~ In p (Locations library)).
Proof.
  split.
  - apply (proj1 (X20_no_post_before_all_is_checked Example.world in_order
                    in_order "Shows" "/mnt/tv" (Some ""%string) None None)).
    left. reflexivity.
  - apply (proj2 (X20_no_post_before_all_is_checked Example.world in_order
                    in_order "Shows" "/mnt/tv" (Some "key"%string) None None)).
    right. eexists. split; [reflexivity|]. discriminate.
Defined.

(** X21: running the command when every directory of the folder is
    already a location of the library changes nothing on the server: the
    folder is scanned, the libraries are fetched, no POST is made, the
    message says that there is nothing new, and the run ends normally -
    whatever order the sets are iterated in. *)
Theorem X21_nothing_new_posts_nothing (w : World) (sets network : Ordering)
    (library_name parent_folder_path : string)
    (api_key path_replace_from path_replace_to : option string)
    (entries : list DirEntry) (libraries : list Library) (library : Library) :
  truthy api_key = true ->
  truthy path_replace_from = truthy path_replace_to ->
  scandir w parent_folder_path = Some entries ->
  virtual_folders w = Ok libraries ->
  find (fun lib => String.eqb (Name lib) library_name) libraries
  = Some library ->
  (forall p,
     In p (candidate_paths path_replace_from path_replace_to entries) ->
     In p (Locations library)) ->
  add_all_subdirectories_to_library w sets network library_name
    parent_folder_path api_key path_replace_from path_replace_to
  = mkRun (Some [CScandir parent_folder_path; CGet]) [NoNewPaths] None.
Proof.
  intros Hkey Hflags Hscan Hget Hfind Hall.
  unfold add_all_subdirectories_to_library, get_libraries.
  rewrite Hkey, Hflags, Hscan, Hget, Hfind. simpl negb. cbv iota.
  assert (Hf : (truthy path_replace_to && negb (truthy path_replace_to))
               || (truthy path_replace_to && negb (truthy path_replace_to))
               = false) by (destruct (truthy path_replace_to); reflexivity).
  rewrite Hf.
  assert (Hnone : set_difference
                    (candidate_paths path_replace_from path_replace_to entries)
                    (set_of (Locations library)) = []).
  { destruct (set_difference _ _) as [|p l] eqn:E; [reflexivity|].
    exfalso.
    assert (Hp : In p (set_difference
                         (candidate_paths path_replace_from path_replace_to
                            entries)
                         (set_of (Locations library))))
      by (rewrite E; left; reflexivity).
    apply set_difference_In in Hp. destruct Hp as [Hp Hnot].
    apply Hnot. apply set_of_In. apply Hall. exact Hp. }
  rewrite <- Hflags in *. rewrite Hnone.
  assert (Harr : arrange sets (@nil string) = []).
  { apply Permutation_nil. apply Permutation_sym. apply arrange_perm. }
  rewrite Harr. reflexivity.
Qed.

Lemma X21_witness :
  add_all_subdirectories_to_library Example.world reversed reversed "Archive"
    "/mnt/tv" (Some "key"%string) None None
  = mkRun (Some [CScandir "/mnt/tv"; CGet]) [NoNewPaths] None.
Proof.
  apply (X21_nothing_new_posts_nothing Example.world reversed reversed
           "Archive" "/mnt/tv" (Some "key"%string) None None
           [mkEntry "/mnt/tv/A" true; mkEntry "/mnt/tv/B" true;
            mkEntry "/mnt/tv/notes.txt" false]
           [mkLibrary "Films" []; mkLibrary "Shows" ["/data/tv/A"%string];
            mkLibrary "Archive" ["/mnt/tv/B"; "/old"; "/mnt/tv/A"]%string]
           (mkLibrary "Archive" ["/mnt/tv/B"; "/old"; "/mnt/tv/A"]%string)).
  - reflexivity.
  - reflexivity.
  - reflexivity.
  - reflexivity.
  - reflexivity.
  - intros p H. vm_compute in H. vm_compute. tauto.
Defined.

(** ** str.replace *)

Lemma starts_with_spec (old s : string) :
  starts_with old s = true <-> exists b, s = String.append old b.
Proof.
  revert s; induction old as [|a old IH]; intros s; simpl.
  - split; [intros _; exists s; reflexivity | reflexivity].
  - destruct s as [|c s].
    + split; [discriminate | intros [b E]; discriminate].
    + rewrite andb_true_iff, IH. split.
      * intros [Hac [b ->]]. apply Ascii.eqb_eq in Hac. subst c.
        exists b. reflexivity.
      * intros [b E]. inversion E; subst. split.
        -- apply Ascii.eqb_refl.
        -- exists b. reflexivity.
Qed.

Lemma replace_from_skip (old new t s : string) :
  replace_from old new (String.length t) (String.append t s)
  = replace_from old new 0 s.
Proof.
  induction t as [|c t IH]; simpl.
  - destruct s; reflexivity.
  - exact IH.
Qed.

Lemma append_assoc (a b c : string) :
  String.append (String.append a b) c = String.append a (String.append b c).
Proof. induction a as [|x a IH]; simpl; [reflexivity | rewrite IH; reflexivity]. Qed.

(** X22: [str_replace], the replacement applied to every directory path,
    obeys the equations of Python's str.replace for a non-empty [old]: the
    empty string is left alone; a string that begins with [old] gets [new]
    there and the replacement goes on after that occurrence; otherwise the
    first character is kept and the replacement goes on behind it.  So a
    path in which [old] does not occur comes out unchanged, and occurrences
    are replaced wherever they are, not only at the start. *)
Theorem X22_str_replace_equations (c : Ascii.ascii) (old' new : string) :
  str_replace (String c old') new EmptyString = EmptyString
  /\ (forall s,
        str_replace (String c old') new (String.append (String c old') s)
        = String.append new (str_replace (String c old') new s))
  /\ (forall d s,
        starts_with (String c old') (String d s) = false ->
        str_replace (String c old') new (String d s)
        = String d (str_replace (String c old') new s))
  /\ (forall s,
        (forall a b,
           s <> String.append a (String.append (String c old') b)) ->
        str_replace (String c old') new s = s).
Proof.
  split; [reflexivity|]. split; [|split].
  - intros s. unfold str_replace.
    change (String.append (String c old') s)
      with (String c (String.append old' s)).
    simpl replace_from at 1.
    assert (Hs : starts_with (String c old') (String c (String.append old' s))
                 = true)
      by (apply starts_with_spec; exists s; reflexivity).
    simpl starts_with in Hs. rewrite Hs.
    rewrite Nat.sub_0_r, replace_from_skip. reflexivity.
  - intros d s Hno. unfold str_replace. simpl replace_from at 1.
    simpl starts_with in Hno. rewrite Hno. reflexivity.
  - intros s. unfold str_replace. induction s as [|d s IH]; intros Hno.
    + reflexivity.
    + simpl replace_from.
      destruct (starts_with (String c old') (String d s)) eqn:E.
      * exfalso. apply starts_with_spec in E. destruct E as [b E].
        apply (Hno EmptyString b). exact E.
      * simpl starts_with in E. rewrite E. f_equal. apply IH.
        intros a b Hs. apply (Hno (String d a) b). rewrite Hs. reflexivity.
Qed.

Lemma X22_witness :
  str_replace "/mnt" "/data" EmptyString = EmptyString
  /\ str_replace "/mnt" "/data" (String.append "/mnt" "/tv/A")
     = String.append "/data" (str_replace "/mnt" "/data" "/tv/A")
  /\ str_replace "/mnt" "/data" "x/mnt"
     = String "x"%char (str_replace "/mnt" "/data" "/mnt").
Proof.
  destruct (X22_str_replace_equations "/"%char "mnt" "/data")
    as [H1 [H2 [H3 _]]].
  split; [exact H1|]. split; [exact (H2 "/tv/A"%string)|].
  apply (H3 "x"%char "/mnt"%string). reflexivity.
Defined.
End JellyfinFacts.
